(** * The [export] command of the sector-recovery tool

    A shallow embedding of [src/export/export.go]: the command's [Action]
    closure, the [SectorInfo] / [RecoveryParams] records and the
    [sort.Interface] methods of [SectorInfos], followed by the properties
    of the classification loop, the activation ordering, the randomness
    loop and the exit status.

    Everything the command calls outside this repository (the lotus node
    API, the address, sort, json, homedir and ioutil packages, the clock)
    is a field of the records [FullNode] and [Host]; the command is a
    function of those answers. *)

From Stdlib Require Import ZArith Lia Permutation Sorted.
From Stdlib Require Import Init.Byte.
From stdpp Require Import prelude strings sorting.

(** ** Go values *)

(** A Go [error] value.  [Errorf] is [xerrors.Errorf format arg]. *)
Inductive error : Type :=
  | Err (msg : string)
  | Errorf (format : string) (arg : error).

(** The pair [(v, err)] returned by a call whose value is read only when
    [err == nil]. *)
Definition result (A : Type) : Type := A + error.

(** The way a piece of Go code ends: it completes with a value, or the
    runtime panics (here: a nil pointer is dereferenced). *)
Inductive outcome (A : Type) : Type :=
  | Done (a : A)
  | Panic.
Arguments Done {A} a.
Arguments Panic {A}.

Global Instance outcome_ret : MRet outcome := @Done.
Global Instance outcome_bind : MBind outcome := λ A B k m,
  match m with
  | Done a => k a
  | Panic => Panic
  end.

(** [for _, x := range xs { s = body s x }], stopping at a panic. *)
Fixpoint forRange {S X : Type} (body : S → X → outcome S) (s : S) (xs : list X)
  : outcome S :=
  match xs with
  | [] => Done s
  | x :: xs' => s' ← body s x; forRange body s' xs'
  end.

(** [uint64(x)] for an [int] (64 bits): two's complement wrap-around. *)
Definition uint64 (x : Z) : Z := (x mod 2 ^ 64)%Z.

(** The range of Go's [int]. *)
Definition is_int (x : Z) : Prop := (- 2 ^ 63 ≤ x < 2 ^ 63)%Z.

(** ** Types of the imported packages

    Their declarations are not part of this repository; each record has
    the fields the command reads. *)

Definition Address : Type := string.       (* address.Address{ str string } *)
Definition Cid : Type := string.           (* cid.Cid{ str string } *)
Definition TipSetKey : Type := string.     (* types.TipSetKey{ value string } *)
Definition EmptyTSK : TipSetKey := "".     (* types.EmptyTSK = TipSetKey{} *)
(* abi.Randomness = []byte; the nil slice is None *)
Definition Randomness : Type := option (list byte).

Inductive DomainSeparationTag : Type :=
  | DomainSeparationTag_SealRandomness.

Module MinerInfo.
Record t : Type := { SectorSize : Z }.
End MinerInfo.

Module SectorOnChainInfo.
Record t : Type :=
  { SectorNumber : Z; SealProof : Z; SealedCID : Cid; Activation : Z }.
End SectorOnChainInfo.

Module SectorPreCommitInfo.
Record t : Type := { SealProof : Z; SectorNumber : Z; SealedCID : Cid }.
End SectorPreCommitInfo.

Module SectorPreCommitOnChainInfo.
Record t : Type := { Info : SectorPreCommitInfo.t; PreCommitEpoch : Z }.
End SectorPreCommitOnChainInfo.

(** A [*types.TipSet] that is not nil: its key and its height. *)
Record TipSet : Type := { Key : TipSetKey; Height : Z }.

(** The node API, whose declaration ([api.FullNode]) is not part of this
    repository; the types are those the command's use of the answers
    shows.  [StateSectorGetInfo] returns a pointer, which [Action] compares
    with nil: a pointer is an [option], [None] being nil.
    [StateSectorPreCommitInfo] returns the pre-commit record by value:
    [Action] reads its fields without a test.  [ChainGetTipSetByHeight]
    keeps both components of its answer, because the command reads the
    tipset without looking at the error. *)
Record FullNode : Type := {
  StateMinerInfo : Address → TipSetKey → result MinerInfo.t;
  StateSectorGetInfo :
    Address → Z → TipSetKey → result (option SectorOnChainInfo.t);
  StateSectorPreCommitInfo :
    Address → Z → TipSetKey → result SectorPreCommitOnChainInfo.t;
  ChainGetTipSetByHeight : Z → TipSetKey → option TipSet * option error;
  StateGetRandomnessFromTickets :
    DomainSeparationTag → Z → list byte → TipSetKey → result Randomness
}.

(** ** The records of export.go *)

Record SectorInfo : Type := {
  SectorNumber : Z;       (* abi.SectorNumber, uint64 *)
  Activation : Z;         (* abi.ChainEpoch, int64 *)
  Ticket : Randomness;
  SealProof : Z;          (* abi.RegisteredSealProof, int64 *)
  SealedCID : Cid
}.

(** [SectorInfos] is [[]*SectorInfo].  Every element is allocated by its
    own [&SectorInfo{...}] and is referenced from one slot only, so the
    slice is the list of the objects and an assignment through the pointer
    in slot [i] replaces the object in slot [i]. *)
Abbreviation SectorInfos := (list SectorInfo).

Module RecoveryParams.
Record t : Type := {
  Miner : Address;
  SectorSize : Z;               (* abi.SectorSize, uint64 *)
  SectorInfos : list SectorInfo
}.
End RecoveryParams.

(** *** sort.Interface *)

Definition Len (t : SectorInfos) : nat := length t.

Definition Swap (t : SectorInfos) (i j : nat) : SectorInfos :=
  match t !! i, t !! j with
  | Some a, Some b => <[i := b]> (<[j := a]> t)
  | _, _ => t
  end.

(** The comparison of [Less] on the two objects [t[i]] and [t[j]]. *)
Definition less (a b : SectorInfo) : bool :=
  if negb (Activation a =? Activation b)%Z
  then (Activation a >? Activation b)%Z
  else (SectorNumber a <? SectorNumber b)%Z.

(** [Less] is called by [sort.Sort] with indices below [Len] only. *)
Definition Less (t : SectorInfos) (i j : nat) : bool :=
  match t !! i, t !! j with
  | Some a, Some b => less a b
  | _, _ => false
  end.

(** ** What the command leaves behind *)

Inductive LogEntry : Type :=
  | LogSectorGetInfo (sector : Z) (err : error)
  | LogPreCommitInfo (sector : Z) (err : error)
  | LogRandomness (sectorNumber : Z) (err : error).

(** The line printed at the end: [len(sectorInfos)], [failtSectors] and
    [end.Sub(start)]. *)
Record Summary : Type := {
  exported : nat;
  failed : list Z;
  elapsed : Z
}.

(** ** The environment outside the node *)

Record Host : Type := {
  NewFromString : string → result Address;
  GetFullNodeAPI : result FullNode;
  MarshalCBOR : Address → result (list byte);
  AddressString : Address → string;
  (** [Key()] called on a nil [TipSet] pointer: [Panic] where the method
      reads the receiver, [Done k] where it guards against nil. *)
  NilTipSetKey : outcome TipSetKey;
  sort_Sort : SectorInfos → SectorInfos;
  MarshalIndent : RecoveryParams.t → result (list byte);
  Expand : string → result string;
  WriteFile : string → list byte → option error;
  time_start : Z;
  time_end : Z
}.

(** [ts.Key()] on the pointer returned by [ChainGetTipSetByHeight]. *)
Definition TipSet_Key (h : Host) (ts : option TipSet) : outcome TipSetKey :=
  match ts with
  | Some t => Done (Key t)
  | None => NilTipSetKey h
  end.

(** ** The local variables of [Action] that the two loops update *)

Record Locals : Type := {
  sectorInfos : SectorInfos;
  failtSectors : list Z;
  tsk : TipSetKey;
  logged : list LogEntry
}.

Definition fail_sector (st : Locals) (n : Z) (l : LogEntry) : Locals :=
  {| sectorInfos := sectorInfos st;
     failtSectors := failtSectors st ++ [n];
     tsk := tsk st;
     logged := logged st ++ [l] |}.

Definition append_info (st : Locals) (si : SectorInfo) : Locals :=
  {| sectorInfos := sectorInfos st ++ [si];
     failtSectors := failtSectors st;
     tsk := tsk st;
     logged := logged st |}.

Definition set_tsk (st : Locals) (k : TipSetKey) : Locals :=
  {| sectorInfos := sectorInfos st;
     failtSectors := failtSectors st;
     tsk := k;
     logged := logged st |}.

Definition set_infos (st : Locals) (t : SectorInfos) : Locals :=
  {| sectorInfos := t;
     failtSectors := failtSectors st;
     tsk := tsk st;
     logged := logged st |}.

Definition set_Ticket (si : SectorInfo) (r : Randomness) : SectorInfo :=
  {| SectorNumber := SectorNumber si;
     Activation := Activation si;
     Ticket := r;
     SealProof := SealProof si;
     SealedCID := SealedCID si |}.

(** ** The classification loop (lines 61-92) *)

Definition classifySector (node : FullNode) (maddr : Address)
    (st : Locals) (sector : Z) : outcome Locals :=
  match StateSectorGetInfo node maddr (uint64 sector) EmptyTSK with
  | inr err =>
      Done (fail_sector st (uint64 sector) (LogSectorGetInfo sector err))
  | inl None =>
      (* ProveCommit not submitted *)
      match StateSectorPreCommitInfo node maddr (uint64 sector) EmptyTSK with
      | inr err =>
          Done (fail_sector st (uint64 sector) (LogPreCommitInfo sector err))
      | inl preCommitInfo =>
          Done (append_info st
            {| SectorNumber := uint64 sector;
               SealProof := SectorPreCommitInfo.SealProof
                              (SectorPreCommitOnChainInfo.Info preCommitInfo);
               Activation := SectorPreCommitOnChainInfo.PreCommitEpoch preCommitInfo;
               SealedCID := SectorPreCommitInfo.SealedCID
                              (SectorPreCommitOnChainInfo.Info preCommitInfo);
               Ticket := None |})
      end
  | inl (Some si) =>
      Done (append_info st
        {| SectorNumber := uint64 sector;
           SealProof := SectorOnChainInfo.SealProof si;
           Activation := SectorOnChainInfo.Activation si;
           SealedCID := SectorOnChainInfo.SealedCID si;
           Ticket := None |})
  end.

Definition classifySectors (node : FullNode) (maddr : Address)
    (st : Locals) (sectors : list Z) : outcome Locals :=
  forRange (classifySector node maddr) st sectors.

(** ** The randomness loop (lines 103-115) *)

(** The body for the object in slot [i].  The error of the tipset lookup
    is overwritten by the next call without being read. *)
Definition resolveTicket (h : Host) (node : FullNode) (buf : list byte)
    (st : Locals) (i : nat) : outcome Locals :=
  match sectorInfos st !! i with
  | None => Panic
  | Some sectorInfo =>
      let '(ts, _) :=
        ChainGetTipSetByHeight node (Activation sectorInfo) (tsk st) in
      k ← TipSet_Key h ts;
      let st := set_tsk st k in
      match StateGetRandomnessFromTickets node DomainSeparationTag_SealRandomness
              (Activation sectorInfo) buf (tsk st) with
      | inr err =>
          Done (fail_sector st (SectorNumber sectorInfo)
                  (LogRandomness (SectorNumber sectorInfo) err))
      | inl ticket =>
          Done (set_infos st (<[i := set_Ticket sectorInfo ticket]> (sectorInfos st)))
      end
  end.

Definition resolveTickets (h : Host) (node : FullNode) (buf : list byte)
    (st : Locals) : outcome Locals :=
  forRange (resolveTicket h node buf) st (seq 0 (length (sectorInfos st))).

(** ** [ExportCmd.Action] (lines 38-140) *)

Inductive Exit : Type :=
  | ExitNil                 (* return nil *)
  | ExitErr (e : error)     (* return a non-nil error *)
  | ExitPanic.

(** What a run leaves: how it ended, the diagnostics logged (for a run
    that panics, those logged before the loop that panicked), the record
    assembled at line 117 (if that line was reached), the name and the
    bytes of the [WriteFile] call that returned nil (what a failed call
    leaves on disk is not described) and the summary printed. *)
Record Run : Type := {
  exit : Exit;
  diagnostics : list LogEntry;
  output : option RecoveryParams.t;
  written : option (string * list byte);
  printed : option Summary
}.

Definition stop (e : Exit) (l : list LogEntry) (o : option RecoveryParams.t) : Run :=
  {| exit := e; diagnostics := l; output := o; written := None; printed := None |}.

Definition init_locals : Locals :=
  {| sectorInfos := []; failtSectors := []; tsk := EmptyTSK; logged := [] |}.

(** Lines 122-139: serialize the record, write the file, print the
    summary. *)
Definition writeOutput (h : Host) (maddr : Address) (start : Z) (st : Locals)
    (output : RecoveryParams.t) : Run :=
  match MarshalIndent h output with
  | inr err => stop (ExitErr err) (logged st) (Some output)
  | inl out =>
  match Expand h ("sectors-recovery-" +:+ AddressString h maddr +:+ ".json") with
  | inr err => stop (ExitErr err) (logged st) (Some output)
  | inl of_ =>
  match WriteFile h of_ out with
  | Some err => stop (ExitErr err) (logged st) (Some output)
  | None =>
      {| exit := ExitNil;
         diagnostics := logged st;
         output := Some output;
         written := Some (of_, out);
         printed := Some {| exported := length (sectorInfos st);
                            failed := failtSectors st;
                            elapsed := (time_end h - start)%Z |} |}
  end end end.

(** Lines 117-121: the record. *)
Definition assemble (maddr : Address) (mi : MinerInfo.t) (st : Locals)
  : RecoveryParams.t :=
  {| RecoveryParams.Miner := maddr;
     RecoveryParams.SectorSize := MinerInfo.SectorSize mi;
     RecoveryParams.SectorInfos := sectorInfos st |}.

(** The closure itself.  The deferred [closer()] only releases the
    connection and is left out. *)
Definition Action (h : Host) (miner : string) (sectors : list Z) : Run :=
  let start := time_start h in
  match NewFromString h miner with
  | inr err => stop (ExitErr (Errorf "Getting NewFromString err:" err)) [] None
  | inl maddr =>
  match GetFullNodeAPI h with
  | inr err => stop (ExitErr (Errorf "Getting FullNodeAPI err:" err)) [] None
  | inl fullNodeApi =>
  match StateMinerInfo fullNodeApi maddr EmptyTSK with
  | inr err => stop (ExitErr (Errorf "Getting StateMinerInfo err:" err)) [] None
  | inl mi =>
  match classifySectors fullNodeApi maddr init_locals sectors with
  | Panic => stop ExitPanic [] None
  | Done st =>
  (* sort by sectorInfo.Activation *)
  let st := set_infos st (sort_Sort h (sectorInfos st)) in
  match MarshalCBOR h maddr with
  | inr err => stop (ExitErr (Errorf "Address MarshalCBOR err:" err)) (logged st) None
  | inl buf =>
  let st := set_tsk st EmptyTSK in
  match resolveTickets h fullNodeApi buf st with
  | Panic => stop ExitPanic (logged st) None
  | Done st =>
      writeOutput h maddr start st (assemble maddr mi st)
  end end end end end end.

(** ** The ordering that [Less] decides *)

(** [a] may stand before [b]: [b] is not less than [a]. *)
Definition ordered (a b : SectorInfo) : Prop := less b a = false.

Global Instance ordered_dec a b : Decision (ordered a b).
Proof. unfold ordered. apply _. Defined.

(** What the command relies on from [sort.Sort]: the slice is rearranged
    (the package only calls [Swap]) and afterwards no element is [Less]
    than its predecessor. *)
Definition SortContract (srt : SectorInfos → SectorInfos) : Prop :=
  ∀ t, srt t ≡ₚ t ∧ ∀ i, S i < Len (srt t) → Less (srt t) (S i) i = false.

(** A sort that meets the contract, used to run the command on examples. *)
Definition reference_sort : SectorInfos → SectorInfos := merge_sort ordered.

(** ** The classifier in the words of the specification (section 4.2) *)

(** Committed metadata exists: its proof type, sealed commitment and true
    activation epoch.  It does not exist: the pre-commit metadata, with the
    pre-commit epoch as activation epoch.  Neither: no [SectorInfo]. *)
Definition spec_classify (node : FullNode) (maddr : Address) (sector : Z)
  : option SectorInfo :=
  match StateSectorGetInfo node maddr (uint64 sector) EmptyTSK with
  | inl (Some committed) =>
      Some {| SectorNumber := uint64 sector;
              Activation := SectorOnChainInfo.Activation committed;
              Ticket := None;
              SealProof := SectorOnChainInfo.SealProof committed;
              SealedCID := SectorOnChainInfo.SealedCID committed |}
  | inl None =>
      match StateSectorPreCommitInfo node maddr (uint64 sector) EmptyTSK with
      | inl pre =>
          Some {| SectorNumber := uint64 sector;
                  Activation := SectorPreCommitOnChainInfo.PreCommitEpoch pre;
                  Ticket := None;
                  SealProof := SectorPreCommitInfo.SealProof
                                 (SectorPreCommitOnChainInfo.Info pre);
                  SealedCID := SectorPreCommitInfo.SealedCID
                                 (SectorPreCommitOnChainInfo.Info pre) |}
      | inr _ => None
      end
  | inr _ => None
  end.

(** A query of the classifier answered with an error for this sector. *)
Definition query_error (node : FullNode) (maddr : Address) (sector : Z) : Prop :=
  match StateSectorGetInfo node maddr (uint64 sector) EmptyTSK with
  | inr _ => True
  | inl (Some _) => False
  | inl None =>
      match StateSectorPreCommitInfo node maddr (uint64 sector) EmptyTSK with
      | inr _ => True
      | inl _ => False
      end
  end.

(** ** Two nodes, or two hosts, that answer alike *)

Definition same_node (n1 n2 : FullNode) : Prop :=
  (∀ a k, StateMinerInfo n1 a k = StateMinerInfo n2 a k) ∧
  (∀ a s k, StateSectorGetInfo n1 a s k = StateSectorGetInfo n2 a s k) ∧
  (∀ a s k, StateSectorPreCommitInfo n1 a s k = StateSectorPreCommitInfo n2 a s k) ∧
  (∀ e k, ChainGetTipSetByHeight n1 e k = ChainGetTipSetByHeight n2 e k) ∧
  (∀ d e b k, StateGetRandomnessFromTickets n1 d e b k
              = StateGetRandomnessFromTickets n2 d e b k).

(** Every answer the assembled record depends on is the same on both
    hosts: those of the node and of the address, sort and json packages.
    The two clocks are left free. *)
Definition same_answers (h1 h2 : Host) : Prop :=
  (∀ s, NewFromString h1 s = NewFromString h2 s) ∧
  match GetFullNodeAPI h1, GetFullNodeAPI h2 with
  | inl n1, inl n2 => same_node n1 n2
  | inr e1, inr e2 => e1 = e2
  | _, _ => False
  end ∧
  (∀ a, MarshalCBOR h1 a = MarshalCBOR h2 a) ∧
  NilTipSetKey h1 = NilTipSetKey h2 ∧
  (∀ t, sort_Sort h1 t = sort_Sort h2 t) ∧
  (∀ r, MarshalIndent h1 r = MarshalIndent h2 r).

(** The file system answers alike on both hosts. *)
Definition same_files (h1 h2 : Host) : Prop :=
  (∀ a, AddressString h1 a = AddressString h2 a) ∧
  (∀ p, Expand h1 p = Expand h2 p) ∧
  (∀ p b, WriteFile h1 p b = WriteFile h2 p b).

(** The serialized form of the record a run assembled. *)
Definition serialized (h : Host) (r : Run) : option (result (list byte)) :=
  MarshalIndent h <$> output r.

(** ** A small chain used to run the command

    Sector 5 is committed and active since epoch 200; sector 3 is only
    pre-committed, at epoch 150; sector 7 has neither record and the
    pre-commit query answers with an error; sector 8 has neither record
    and the pre-commit query answers the zero-valued record without an
    error; for every other sector the node answers with an error. *)

(** The zero value of the pre-commit record. *)
Definition zero_precommit : SectorPreCommitOnChainInfo.t :=
  {| SectorPreCommitOnChainInfo.Info :=
       {| SectorPreCommitInfo.SealProof := 0;
          SectorPreCommitInfo.SectorNumber := 0;
          SectorPreCommitInfo.SealedCID := "" |};
     SectorPreCommitOnChainInfo.PreCommitEpoch := 0 |}.

Definition demo_info (n : Z) : result (option SectorOnChainInfo.t) :=
  if (n =? 5)%Z then
    inl (Some {| SectorOnChainInfo.SectorNumber := 5;
                 SectorOnChainInfo.SealProof := 8;
                 SectorOnChainInfo.SealedCID := "bagboea5";
                 SectorOnChainInfo.Activation := 200 |})
  else if (n =? 3)%Z || (n =? 7)%Z || (n =? 8)%Z then inl None
  else inr (Err "sector info not found").

Definition demo_precommit (n : Z) : result SectorPreCommitOnChainInfo.t :=
  if (n =? 3)%Z then
    inl {| SectorPreCommitOnChainInfo.Info :=
             {| SectorPreCommitInfo.SealProof := 8;
                SectorPreCommitInfo.SectorNumber := 3;
                SectorPreCommitInfo.SealedCID := "bagboea3" |};
           SectorPreCommitOnChainInfo.PreCommitEpoch := 150 |}
  else if (n =? 8)%Z then inl zero_precommit
  else inr (Err "precommit info not found").

Definition demo_tipset (e : Z) (from : TipSetKey) : option TipSet * option error :=
  if (e =? 200)%Z then (Some {| Key := "ts200"; Height := 200 |}, None)
  else if (e =? 150)%Z then (Some {| Key := "ts150"; Height := 150 |}, None)
  else (None, Some (Err "tipset not found")).

(** No tipset can be looked up. *)
Definition no_tipset (e : Z) (from : TipSetKey) : option TipSet * option error :=
  (None, Some (Err "tipset not found")).

(** Randomness for any tipset key: one byte per epoch. *)
Definition demo_randomness (e : Z) (k : TipSetKey) : result Randomness :=
  if (e =? 200)%Z then inl (Some [xc8]) else inl (Some [x96]).

(** Randomness cannot be derived at the tipset of epoch 200. *)
Definition randomness_but_200 (e : Z) (k : TipSetKey) : result Randomness :=
  if String.eqb k "ts200" then inr (Err "randomness not available")
  else demo_randomness e k.

Definition no_randomness (e : Z) (k : TipSetKey) : result Randomness :=
  inr (Err "randomness not available").

Definition demo_miner_info : MinerInfo.t :=
  {| MinerInfo.SectorSize := 34359738368 |}.

Definition demo_node_with
    (tipset : Z → TipSetKey → option TipSet * option error)
    (randomness : Z → TipSetKey → result Randomness) : FullNode :=
  {| StateMinerInfo := λ _ _, inl demo_miner_info;
     StateSectorGetInfo := λ _ n _, demo_info n;
     StateSectorPreCommitInfo := λ _ n _, demo_precommit n;
     ChainGetTipSetByHeight := tipset;
     StateGetRandomnessFromTickets := λ _ e _ k, randomness e k |}.

Definition demo_node : FullNode := demo_node_with demo_tipset demo_randomness.

Definition demo_host_with (node : FullNode) (nilkey : outcome TipSetKey)
    (write : option error) (t0 t1 : Z) : Host :=
  {| NewFromString := λ s,
       if String.eqb s "f01000" then inl "f01000" else inr (Err "unknown address");
     GetFullNodeAPI := inl node;
     MarshalCBOR := λ _, inl [x43; x00; xe8; x07];
     AddressString := λ a, a;
     NilTipSetKey := nilkey;
     sort_Sort := reference_sort;
     MarshalIndent := λ r, inl (const x2e <$> RecoveryParams.SectorInfos r);
     Expand := λ p, inl p;
     WriteFile := λ _ _, write;
     time_start := t0;
     time_end := t1 |}.

Definition demo_host : Host :=
  demo_host_with demo_node (Done EmptyTSK) None 0 7.

(** The tipset lookup fails, the library guards [Key] against nil. *)
Definition host_lookup_fails : Host :=
  demo_host_with (demo_node_with no_tipset demo_randomness) (Done EmptyTSK) None 0 7.

(** The tipset lookup fails, the library reads the nil receiver. *)
Definition host_lookup_fails_unguarded : Host :=
  demo_host_with (demo_node_with no_tipset demo_randomness) Panic None 0 7.

(** The output file cannot be written. *)
Definition host_disk_full : Host :=
  demo_host_with demo_node (Done EmptyTSK) (Some (Err "no space left on device")) 0 7.

Definition host_no_randomness : Host :=
  demo_host_with (demo_node_with demo_tipset no_randomness) (Done EmptyTSK) None 0 7.

Definition info5 : SectorInfo :=
  {| SectorNumber := 5; Activation := 200; Ticket := None;
     SealProof := 8; SealedCID := "bagboea5" |}.

Definition info3 : SectorInfo :=
  {| SectorNumber := 3; Activation := 150; Ticket := None;
     SealProof := 8; SealedCID := "bagboea3" |}.

(** The object with its ticket removed: what the classifier and the sort
    see of it. *)
Definition erase (si : SectorInfo) : SectorInfo := set_Ticket si None.

(** A condition under which the randomness loop cannot panic. *)
Definition key_safe (h : Host) (node : FullNode) : Prop :=
  NilTipSetKey h ≠ Panic ∨ ∀ e k, (ChainGetTipSetByHeight node e k).1 ≠ None.

(** The state in which the randomness loop starts: the slice sorted, the
    walk at the chain head. *)
Definition sorted_locals (h : Host) (st : Locals) : Locals :=
  set_tsk (set_infos st (sort_Sort h (sectorInfos st))) EmptyTSK.

(** The name of the output file. *)
Definition output_name (h : Host) (maddr : Address) : string :=
  "sectors-recovery-" +:+ AddressString h maddr +:+ ".json".

(** More of the small chain: the two classified sectors before the
    randomness loop, a node that cannot derive randomness at the tipset of
    epoch 200, and a host whose clock reads differently. *)
Definition demo_locals : Locals :=
  {| sectorInfos := [info5; info3]; failtSectors := [];
     tsk := EmptyTSK; logged := [] |}.

(** The record of the run on sectors 3, 9 and 5. *)
Definition demo_record : RecoveryParams.t :=
  {| RecoveryParams.Miner := "f01000";
     RecoveryParams.SectorSize := 34359738368;
     RecoveryParams.SectorInfos :=
       [set_Ticket info5 (Some [xc8]); set_Ticket info3 (Some [x96])] |}.

Definition node_but_200 : FullNode := demo_node_with demo_tipset randomness_but_200.

Definition host_but_200 : Host :=
  demo_host_with node_but_200 (Done EmptyTSK) None 0 7.

Definition host_other_clock : Host :=
  demo_host_with demo_node (Done EmptyTSK) None 1000 1900.

(** The error of the first step of [Action] that returns one, given the
    record [rec] assembled at line 117 (if any): the seven places where
    the command executes [return err]. *)
Definition returned_error (h : Host) (miner : string)
    (rec : option RecoveryParams.t) : option error :=
  match NewFromString h miner with
  | inr err => Some (Errorf "Getting NewFromString err:" err)
  | inl maddr =>
  match GetFullNodeAPI h with
  | inr err => Some (Errorf "Getting FullNodeAPI err:" err)
  | inl node =>
  match StateMinerInfo node maddr EmptyTSK with
  | inr err => Some (Errorf "Getting StateMinerInfo err:" err)
  | inl _ =>
  match MarshalCBOR h maddr with
  | inr err => Some (Errorf "Address MarshalCBOR err:" err)
  | inl _ =>
  match rec with
  | None => None
  | Some rec =>
  match MarshalIndent h rec with
  | inr err => Some err
  | inl out =>
  match Expand h (output_name h maddr) with
  | inr err => Some err
  | inl of_ => WriteFile h of_ out
  end end end end end end end.

(** Everything a run leaves behind except the elapsed time. *)
Definition observable (r : Run)
  : Exit * list LogEntry * option RecoveryParams.t * option (string * list byte)
    * option (nat * list Z) :=
  (exit r, diagnostics r, output r, written r,
   (λ s, (exported s, failed s)) <$> printed r).

(** ** Notions used by the further properties *)


(** The host connected to another node. *)
Definition with_node (h : Host) (node : FullNode) : Host :=
  {| NewFromString := NewFromString h;
     GetFullNodeAPI := inl node;
     MarshalCBOR := MarshalCBOR h;
     AddressString := AddressString h;
     NilTipSetKey := NilTipSetKey h;
     sort_Sort := sort_Sort h;
     MarshalIndent := MarshalIndent h;
     Expand := Expand h;
     WriteFile := WriteFile h;
     time_start := time_start h;
     time_end := time_end h |}.

(** Two nodes that give the same miner info and may differ in every
    answer about a sector, a tipset or randomness. *)
Definition same_miner_info (n1 n2 : FullNode) : Prop :=
  ∀ a k, StateMinerInfo n1 a k = StateMinerInfo n2 a k.

(** Whether marshalling the record fails, and whether writing the file
    fails, does not depend on the sector list marshalled or on the bytes
    written. *)
Definition status_blind (h : Host) : Prop :=
  (∀ r1 r2 out, MarshalIndent h r1 = inl out → ∃ out', MarshalIndent h r2 = inl out') ∧
  (∀ p b1 b2, WriteFile h p b1 = None → WriteFile h p b2 = None).

(** The failure-list entry of a requested sector that is not classified. *)
Definition spec_failure (node : FullNode) (maddr : Address) (sector : Z)
  : option Z :=
  match spec_classify node maddr sector with
  | Some _ => None
  | None => Some (uint64 sector)
  end.

(** The host with another implementation of [sort.Sort]. *)
Definition with_sort (h : Host) (srt : SectorInfos → SectorInfos) : Host :=
  {| NewFromString := NewFromString h;
     GetFullNodeAPI := GetFullNodeAPI h;
     MarshalCBOR := MarshalCBOR h;
     AddressString := AddressString h;
     NilTipSetKey := NilTipSetKey h;
     sort_Sort := srt;
     MarshalIndent := MarshalIndent h;
     Expand := Expand h;
     WriteFile := WriteFile h;
     time_start := time_start h;
     time_end := time_end h |}.

(** Another sort that meets the contract: the reference sort run on the
    reversed slice. *)
Definition reversed_sort (t : SectorInfos) : SectorInfos :=
  reference_sort (reverse t).

(** A value of [uint64]. *)
Definition is_uint64 (x : Z) : Prop := (0 ≤ x < 2 ^ 64)%Z.

(** The fields of a [SectorInfo] other than the ticket agree. *)
Definition same_but_Ticket (a b : SectorInfo) : Prop :=
  SectorNumber a = SectorNumber b ∧ Activation a = Activation b ∧
  SealProof a = SealProof b ∧ SealedCID a = SealedCID b.

(** Two nodes that answer alike except, possibly, in the error that
    [ChainGetTipSetByHeight] returns beside the tipset. *)
Definition same_but_lookup_error (n1 n2 : FullNode) : Prop :=
  (∀ a k, StateMinerInfo n1 a k = StateMinerInfo n2 a k) ∧
  (∀ a s k, StateSectorGetInfo n1 a s k = StateSectorGetInfo n2 a s k) ∧
  (∀ a s k, StateSectorPreCommitInfo n1 a s k = StateSectorPreCommitInfo n2 a s k) ∧
  (∀ e k, (ChainGetTipSetByHeight n1 e k).1 = (ChainGetTipSetByHeight n2 e k).1) ∧
  (∀ d e b k, StateGetRandomnessFromTickets n1 d e b k
              = StateGetRandomnessFromTickets n2 d e b k).

(** The lookup finds the tipsets of the small chain and reports an error
    all the same. *)
Definition tipset_with_error (e : Z) (from : TipSetKey) : option TipSet * option error :=
  ((demo_tipset e from).1, Some (Err "lookup failed")).

(** * Properties *)

(** ** Loops *)

Section forRange.
Context {S X : Type} (body : S → X → outcome S).

Lemma forRange_app s xs ys :
  forRange body s (xs ++ ys) = s' ← forRange body s xs; forRange body s' ys.
Proof.
  revert s. induction xs as [|x xs IH]; intros s; simpl; [done|].
  destruct (body s x) as [s1|]; simpl; [apply IH|done].
Qed.

(** A property kept by every completed iteration is kept by the loop. *)
Lemma forRange_invariant (P : S → Prop) (Q : X → Prop) s xs s' :
  (∀ s x s', Q x → P s → body s x = Done s' → P s') →
  Forall Q xs → P s → forRange body s xs = Done s' → P s'.
Proof.
  intros Hstep. revert s. induction xs as [|x xs IH]; intros s HQ HP; simpl.
  - by intros [= <-].
  - inversion_clear HQ as [|?? Hx Hxs].
    destruct (body s x) as [s1|] eqn:Hb; simpl; [|done].
    apply IH; [done|]. by eapply Hstep.
Qed.

(** The loop completes when every iteration does, from any state that
    satisfies an invariant. *)
Lemma forRange_total (P : S → Prop) (Q : X → Prop) s xs :
  (∀ s x, Q x → P s → ∃ s', body s x = Done s' ∧ P s') →
  Forall Q xs → P s → ∃ s', forRange body s xs = Done s' ∧ P s'.
Proof.
  intros Hstep. revert s. induction xs as [|x xs IH]; intros s HQ HP; simpl.
  - by exists s.
  - inversion_clear HQ as [|?? Hx Hxs].
    destruct (Hstep s x Hx HP) as (s1 & -> & HP1). simpl. by apply IH.
Qed.
End forRange.

(** ** Conversions *)

Lemma uint64_inj_int x y : is_int x → is_int y → uint64 x = uint64 y → x = y.
Proof.
  unfold is_int, uint64. intros Hx Hy Heq.
  assert (H64 : (2 ^ 64 = 2 * 2 ^ 63)%Z) by reflexivity.
  destruct (Z_lt_le_dec x 0), (Z_lt_le_dec y 0).
  - rewrite <- (Z.mod_add x 1), <- (Z.mod_add y 1) in Heq by lia.
    rewrite !Z.mod_small in Heq by lia. lia.
  - rewrite <- (Z.mod_add x 1) in Heq by lia.
    rewrite !Z.mod_small in Heq by lia. lia.
  - rewrite <- (Z.mod_add y 1) in Heq by lia.
    rewrite !Z.mod_small in Heq by lia. lia.
  - rewrite !Z.mod_small in Heq by lia. lia.
Qed.

Lemma uint64_NoDup sectors :
  NoDup sectors → Forall is_int sectors → NoDup (uint64 <$> sectors).
Proof.
  induction 1 as [|x l Hx Hl IH]; intros Hint; simpl; [constructor|].
  inversion_clear Hint as [|?? Hix Hil]. constructor; [|by apply IH].
  intros (y & Heq & Hy)%list_elem_of_fmap.
  rewrite Forall_forall in Hil.
  apply uint64_inj_int in Heq; [congruence|done|by apply Hil].
Qed.

(** ** The comparison *)

Lemma less_spec a b :
  less a b = true ↔
  (Activation a > Activation b ∨
   (Activation a = Activation b ∧ SectorNumber a < SectorNumber b))%Z.
Proof.
  unfold less. destruct (Z.eqb_spec (Activation a) (Activation b)) as [He|Hne]; simpl.
  - rewrite Z.ltb_lt. lia.
  - rewrite Z.gtb_gt. lia.
Qed.

Lemma ordered_spec a b :
  ordered a b ↔
  (Activation a > Activation b ∨
   (Activation a = Activation b ∧ SectorNumber a ≤ SectorNumber b))%Z.
Proof.
  unfold ordered. rewrite <- not_true_iff_false, less_spec. lia.
Qed.

Global Instance ordered_total : Total ordered.
Proof. intros a b. rewrite !ordered_spec. lia. Qed.

Global Instance ordered_trans : Transitive ordered.
Proof. intros a b c. rewrite !ordered_spec. lia. Qed.

(** [Swap] rearranges the slice. *)
Lemma Swap_Permutation t i j : Swap t i j ≡ₚ t.
Proof.
  unfold Swap. destruct (t !! i) as [a|] eqn:Hi; [|done].
  destruct (t !! j) as [b|] eqn:Hj; [|done].
  destruct (decide (i = j)) as [->|Hne].
  - rewrite list_insert_insert_eq. simplify_eq. by rewrite list_insert_id.
  - apply Permutation_inj. split.
    + by rewrite !length_insert.
    + exists (λ n, if decide (n = i) then j else if decide (n = j) then i else n).
      split.
      * intros x y. repeat case_decide; congruence.
      * intros n. repeat case_decide; subst.
        -- rewrite list_lookup_insert_eq; [done|].
           rewrite length_insert. by eapply lookup_lt_Some.
        -- rewrite list_lookup_insert_ne by done.
           rewrite list_lookup_insert_eq; [done|]. by eapply lookup_lt_Some.
        -- by rewrite !list_lookup_insert_ne by done.
Qed.

(** Adjacent elements of a [Sorted] list are related. *)
Lemma Sorted_adjacent {A} (R : relation A) (l : list A) i a b :
  Sorted R l → l !! i = Some a → l !! S i = Some b → R a b.
Proof.
  intros Hs. revert i. induction Hs as [|x l Hs IH Hhd]; intros i Ha Hb; [done|].
  destruct i as [|i]; simpl in *.
  - simplify_eq. destruct Hhd as [|y l' Hxy]; simplify_eq/=. done.
  - by eapply IH.
Qed.

Lemma reference_sort_contract : SortContract reference_sort.
Proof.
  intros t. split; [apply merge_sort_Permutation|].
  intros i Hi. unfold Less, Len in *.
  destruct (lookup_lt_is_Some_2 (reference_sort t) (S i) Hi) as [b Hb].
  destruct (lookup_lt_is_Some_2 (reference_sort t) i) as [a Ha]; [lia|].
  rewrite Hb, Ha.
  eapply (Sorted_adjacent ordered); [|done..].
  apply (Sorted_merge_sort ordered).
Qed.

(** Under the contract every adjacent pair of the sorted slice is
    [ordered]. *)
Lemma SortContract_adjacent srt t i a b :
  SortContract srt → srt t !! i = Some a → srt t !! S i = Some b → ordered a b.
Proof.
  intros Hc Ha Hb. destruct (Hc t) as [_ Hs].
  specialize (Hs i). unfold Less, Len in Hs. rewrite Hb, Ha in Hs.
  apply Hs. by eapply lookup_lt_Some.
Qed.

(** ** The classification loop *)

Section classification.
Context (node : FullNode) (maddr : Address).

(** One completed iteration appends the [SectorInfo] of the specification
    when there is one, and the sector number to the failure list when
    there is none. *)
Lemma classifySector_Done st sector st' :
  classifySector node maddr st sector = Done st' →
  sectorInfos st' = sectorInfos st ++ option_list (spec_classify node maddr sector) ∧
  failtSectors st' = failtSectors st ++
    match spec_classify node maddr sector with
    | Some _ => []
    | None => [uint64 sector]
    end ∧
  tsk st' = tsk st.
Proof.
  unfold classifySector, spec_classify.
  destruct (StateSectorGetInfo node maddr (uint64 sector) EmptyTSK) as [[si|]|err].
  - intros [= <-]. simpl. by rewrite app_nil_r.
  - destruct (StateSectorPreCommitInfo node maddr (uint64 sector) EmptyTSK)
      as [pci|err]; intros [= <-]; simpl; by rewrite app_nil_r.
  - intros [= <-]. simpl. by rewrite app_nil_r.
Qed.

Lemma classifySectors_Done st sectors st' :
  classifySectors node maddr st sectors = Done st' →
  sectorInfos st' = sectorInfos st ++ omap (spec_classify node maddr) sectors ∧
  tsk st' = tsk st.
Proof.
  unfold classifySectors. revert st.
  induction sectors as [|s sectors IH]; intros st; simpl.
  - intros [= <-]. by rewrite app_nil_r.
  - destruct (classifySector node maddr st s) as [st1|] eqn:Hs; simpl; [|done].
    intros Hrest. apply classifySector_Done in Hs as (Hi & _ & Ht).
    apply IH in Hrest as (Hi' & Ht'). rewrite Hi', Hi, Ht', Ht. split; [|done].
    rewrite <- app_assoc. f_equal.
    by destruct (spec_classify node maddr s).
Qed.

(** A sector lands in the failure list exactly on a query error. *)
Lemma classifySector_failure st sector st' :
  classifySector node maddr st sector = Done st' →
  (query_error node maddr sector ∧
     failtSectors st' = failtSectors st ++ [uint64 sector] ∧
     sectorInfos st' = sectorInfos st) ∨
  (¬ query_error node maddr sector ∧ failtSectors st' = failtSectors st).
Proof.
  unfold classifySector, query_error.
  destruct (StateSectorGetInfo node maddr (uint64 sector) EmptyTSK) as [[si|]|err].
  - intros [= <-]. right. by split; [tauto|].
  - destruct (StateSectorPreCommitInfo node maddr (uint64 sector) EmptyTSK)
      as [pci|err]; intros [= <-].
    + right. by split; [tauto|].
    + by left.
  - intros [= <-]. by left.
Qed.

(** The loop completes whatever the node answers. *)
Lemma classifySectors_total st sectors :
  ∃ st', classifySectors node maddr st sectors = Done st'.
Proof.
  destruct (forRange_total (classifySector node maddr) (λ _, True)
              (λ _, True) st sectors) as (st' & Hst' & _);
    [|by apply Forall_true|done|by eauto].
  intros s x _ _. unfold classifySector.
  destruct (StateSectorGetInfo node maddr (uint64 x) EmptyTSK) as [[si|]|err];
    [by eauto| |by eauto].
  destruct (StateSectorPreCommitInfo node maddr (uint64 x) EmptyTSK)
    as [pci|err]; by eauto.
Qed.


Lemma spec_classify_SectorNumber sector si :
  spec_classify node maddr sector = Some si → SectorNumber si = uint64 sector.
Proof.
  unfold spec_classify.
  destruct (StateSectorGetInfo node maddr (uint64 sector) EmptyTSK) as [[c|]|err];
    [by intros [= <-]| |done].
  destruct (StateSectorPreCommitInfo node maddr (uint64 sector) EmptyTSK)
    as [pci|err]; [by intros [= <-]|done].
Qed.

Lemma spec_classify_Ticket sector si :
  spec_classify node maddr sector = Some si → Ticket si = None.
Proof.
  unfold spec_classify.
  destruct (StateSectorGetInfo node maddr (uint64 sector) EmptyTSK) as [[c|]|err];
    [by intros [= <-]| |done].
  destruct (StateSectorPreCommitInfo node maddr (uint64 sector) EmptyTSK)
    as [pci|err]; [by intros [= <-]|done].
Qed.

(** The sector numbers classified are among those requested, in order. *)
Lemma spec_classify_numbers sectors :
  SectorNumber <$> omap (spec_classify node maddr) sectors
  `sublist_of` uint64 <$> sectors.
Proof.
  induction sectors as [|s sectors IH]; simpl; [done|].
  destruct (spec_classify node maddr s) as [si|] eqn:Hs; simpl.
  - rewrite (spec_classify_SectorNumber _ _ Hs). by apply sublist_skip.
  - by apply sublist_cons.
Qed.
End classification.

(** ** The randomness loop *)

Section randomness.
Context (h : Host) (node : FullNode) (buf : list byte).

Local Abbreviation body := (resolveTicket h node buf).

(** What one completed iteration did: the key of the tipset the lookup
    returned is the new [tsk]; then either the ticket went into slot [i],
    or the sector went into the failure list. *)
Lemma resolveTicket_Done st i st' :
  body st i = Done st' →
  ∃ si k, sectorInfos st !! i = Some si ∧
    TipSet_Key h (ChainGetTipSetByHeight node (Activation si) (tsk st)).1 = Done k ∧
    tsk st' = k ∧
    match StateGetRandomnessFromTickets node DomainSeparationTag_SealRandomness
            (Activation si) buf k with
    | inr err =>
        sectorInfos st' = sectorInfos st ∧
        failtSectors st' = failtSectors st ++ [SectorNumber si]
    | inl ticket =>
        sectorInfos st' = <[i := set_Ticket si ticket]> (sectorInfos st) ∧
        failtSectors st' = failtSectors st
    end.
Proof.
  unfold resolveTicket. destruct (sectorInfos st !! i) as [si|]; [|done].
  destruct (ChainGetTipSetByHeight node (Activation si) (tsk st)) as [ts e] eqn:Hts.
  simpl. destruct (TipSet_Key h ts) as [k|] eqn:Hk; simpl; [|done].
  intros Hst'. exists si, k. rewrite Hts. simpl in Hst'.
  destruct (StateGetRandomnessFromTickets _ _ _ _ _); by simplify_eq.
Qed.

(** An iteration touches slot [i] only, and there only the ticket. *)
Lemma resolveTicket_other st i st' j :
  body st i = Done st' → i ≠ j → sectorInfos st' !! j = sectorInfos st !! j.
Proof.
  intros (si & k & Hi & _ & _ & Hr)%resolveTicket_Done Hne.
  destruct (StateGetRandomnessFromTickets _ _ _ _ _); destruct Hr as [-> _];
    [by rewrite list_lookup_insert_ne|done].
Qed.

Lemma resolveTicket_erase st i st' :
  body st i = Done st' → erase <$> sectorInfos st' = erase <$> sectorInfos st.
Proof.
  intros (si & k & Hi & _ & _ & Hr)%resolveTicket_Done.
  destruct (StateGetRandomnessFromTickets _ _ _ _ _); destruct Hr as [-> _]; [|done].
  rewrite list_fmap_insert. apply list_insert_id.
  by rewrite list_lookup_fmap, Hi.
Qed.

Lemma resolveTicket_failt st i st' :
  body st i = Done st' → failtSectors st `prefix_of` failtSectors st'.
Proof.
  intros (si & k & Hi & _ & _ & Hr)%resolveTicket_Done.
  destruct (StateGetRandomnessFromTickets _ _ _ _ _); destruct Hr as [_ ->];
    [done|by apply prefix_app_r].
Qed.

Lemma forRange_resolve_erase st js st' :
  forRange body st js = Done st' →
  erase <$> sectorInfos st' = erase <$> sectorInfos st.
Proof.
  apply (forRange_invariant body
           (λ s, erase <$> sectorInfos s = erase <$> sectorInfos st) (λ _, True));
    [|by apply Forall_true|done].
  intros s x s' _ Hs Hb. by rewrite (resolveTicket_erase _ _ _ Hb).
Qed.

Lemma forRange_resolve_other st js st' j :
  j ∉ js → forRange body st js = Done st' →
  sectorInfos st' !! j = sectorInfos st !! j.
Proof.
  intros Hj.
  apply (forRange_invariant body
           (λ s, sectorInfos s !! j = sectorInfos st !! j) (λ i, i ≠ j));
    [| |done].
  - intros s x s' Hx Hs Hb. by rewrite (resolveTicket_other _ _ _ _ Hb Hx).
  - apply Forall_forall. intros x Hx ->. done.
Qed.

Lemma forRange_resolve_failt st js st' :
  forRange body st js = Done st' → failtSectors st `prefix_of` failtSectors st'.
Proof.
  apply (forRange_invariant body
           (λ s, failtSectors st `prefix_of` failtSectors s) (λ _, True));
    [|by apply Forall_true|done].
  intros s x s' _ Hs Hb. etrans; [done|]. by eapply resolveTicket_failt.
Qed.

Lemma resolveTickets_erase st st' :
  resolveTickets h node buf st = Done st' →
  erase <$> sectorInfos st' = erase <$> sectorInfos st.
Proof. apply forRange_resolve_erase. Qed.

(** The loop completes when [Key] cannot panic. *)
Lemma resolveTickets_total st :
  key_safe h node → ∃ st', resolveTickets h node buf st = Done st'.
Proof.
  intros Hsafe. unfold resolveTickets.
  destruct (forRange_total body
              (λ s, length (sectorInfos s) = length (sectorInfos st))
              (λ i, i < length (sectorInfos st)) st
              (seq 0 (length (sectorInfos st)))) as (st' & Hst' & _);
    [| |done|by eauto].
  - intros s i Hi Hlen. unfold resolveTicket.
    destruct (lookup_lt_is_Some_2 (sectorInfos s) i) as [si Hsi]; [lia|].
    rewrite Hsi.
    destruct (ChainGetTipSetByHeight node (Activation si) (tsk s)) as [ts e] eqn:Hts.
    assert (∃ k, TipSet_Key h ts = Done k) as [k ->].
    { destruct ts as [t|]; simpl; [by eauto|].
      destruct Hsafe as [Hnil|Hall].
      - destruct (NilTipSetKey h); [by eauto|done].
      - specialize (Hall (Activation si) (tsk s)). by rewrite Hts in Hall. }
    simpl. destruct (StateGetRandomnessFromTickets _ _ _ _ _);
      eexists; (split; [done|]); simpl; [by rewrite length_insert|done].
  - apply Forall_forall. intros i Hi%elem_of_seq. lia.
Qed.

End randomness.

(** ** The command as a whole *)

Lemma erase_id si : Ticket si = None → erase si = si.
Proof. destruct si as [n a t p c]. simpl. by intros ->. Qed.

Lemma erase_fmap_id (l : SectorInfos) :
  Forall (λ si, Ticket si = None) l → erase <$> l = l.
Proof.
  induction 1 as [|si l Hsi _ IH]; [done|]. by rewrite fmap_cons, IH, erase_id.
Qed.

Lemma spec_classify_all_absent node maddr sectors :
  Forall (λ si, Ticket si = None) (omap (spec_classify node maddr) sectors).
Proof.
  apply Forall_forall. intros si (s & _ & Hs)%list_elem_of_omap.
  by eapply spec_classify_Ticket.
Qed.

Lemma output_writeOutput h maddr start st rec :
  output (writeOutput h maddr start st rec) = Some rec.
Proof.
  unfold writeOutput. destruct (MarshalIndent h rec); [|done].
  destruct (Expand h _); [|done]. by destruct (WriteFile h _ _).
Qed.

(** A run that reaches line 117 went through every step before it. *)
Lemma Action_output h miner sectors rec :
  output (Action h miner sectors) = Some rec →
  ∃ maddr node mi st1 buf st2,
    NewFromString h miner = inl maddr ∧
    GetFullNodeAPI h = inl node ∧
    StateMinerInfo node maddr EmptyTSK = inl mi ∧
    classifySectors node maddr init_locals sectors = Done st1 ∧
    MarshalCBOR h maddr = inl buf ∧
    resolveTickets h node buf (sorted_locals h st1) = Done st2 ∧
    rec = assemble maddr mi st2.
Proof.
  unfold Action.
  destruct (NewFromString h miner) as [maddr|] eqn:Hm; [|done].
  destruct (GetFullNodeAPI h) as [node|] eqn:Hn; [|done].
  destruct (StateMinerInfo node maddr EmptyTSK) as [mi|] eqn:Hmi; [|done].
  destruct (classifySectors node maddr init_locals sectors) as [st1|] eqn:Hc; [|done].
  destruct (MarshalCBOR h maddr) as [buf|] eqn:Hb; [|done].
  fold (sorted_locals h st1).
  destruct (resolveTickets h node buf (sorted_locals h st1)) as [st2|] eqn:Hr; [|done].
  rewrite output_writeOutput. intros [= <-].
  by exists maddr, node, mi, st1, buf, st2.
Qed.

Lemma Action_run h miner sectors maddr node mi st1 buf st2 :
  NewFromString h miner = inl maddr →
  GetFullNodeAPI h = inl node →
  StateMinerInfo node maddr EmptyTSK = inl mi →
  classifySectors node maddr init_locals sectors = Done st1 →
  MarshalCBOR h maddr = inl buf →
  resolveTickets h node buf (sorted_locals h st1) = Done st2 →
  Action h miner sectors
  = writeOutput h maddr (time_start h) st2 (assemble maddr mi st2).
Proof.
  intros Hm Hn Hmi Hc Hb Hr. unfold Action. rewrite Hm, Hn, Hmi, Hc, Hb.
  fold (sorted_locals h st1). by rewrite Hr.
Qed.

(** The sector list of the record, tickets aside, is the sorted slice of
    the classified sectors. *)
Lemma Action_sector_list h miner sectors rec :
  SortContract (sort_Sort h) →
  output (Action h miner sectors) = Some rec →
  ∃ maddr node,
    NewFromString h miner = inl maddr ∧ GetFullNodeAPI h = inl node ∧
    erase <$> RecoveryParams.SectorInfos rec
      = sort_Sort h (omap (spec_classify node maddr) sectors).
Proof.
  intros Hsort (maddr & node & mi & st1 & buf & st2 & Hm & Hn & _ & Hc & _ & Hr & ->)
    %Action_output.
  exists maddr, node. split_and!; [done..|]. simpl.
  apply resolveTickets_erase in Hr. rewrite Hr. simpl.
  apply classifySectors_Done in Hc as [-> _]. simpl.
  apply erase_fmap_id.
  destruct (Hsort (omap (spec_classify node maddr) sectors)) as [Hp _].
  rewrite Hp. apply spec_classify_all_absent.
Qed.

(** * The claims *)

(** C1 (fails on the code).  A tipset lookup that fails is meant to put the
    sector into the failure set, log a diagnostic and leave the ticket
    absent, without a fault.  On the run below the lookup for sector 5 at
    epoch 200 answers [(nil, err)]; the loop reads [Key] of the nil tipset.
    Where the library guards that call, the ticket derived at the chain
    head is attached, the failure list stays empty and nothing is logged;
    where it does not, the command panics. *)
Theorem C1_lookup_error_goes_unrecorded :
  ChainGetTipSetByHeight (demo_node_with no_tipset demo_randomness) 200 EmptyTSK
    = (None, Some (Err "tipset not found")) ∧
  exit (Action host_lookup_fails "f01000" [5%Z]) = ExitNil ∧
  diagnostics (Action host_lookup_fails "f01000" [5%Z]) = [] ∧
  failed <$> printed (Action host_lookup_fails "f01000" [5%Z]) = Some [] ∧
  RecoveryParams.SectorInfos <$> output (Action host_lookup_fails "f01000" [5%Z])
    = Some [set_Ticket info5 (Some [xc8])] ∧
  exit (Action host_lookup_fails_unguarded "f01000" [5%Z]) = ExitPanic.
Proof. by vm_compute. Qed.

(** The same in general: with a guarded [Key], an iteration whose lookup
    fails and whose derivation succeeds attaches the ticket and records no
    failure. *)
Lemma resolveTicket_lookup_error h node buf st i si e k ticket :
  sectorInfos st !! i = Some si →
  ChainGetTipSetByHeight node (Activation si) (tsk st) = (None, Some e) →
  NilTipSetKey h = Done k →
  StateGetRandomnessFromTickets node DomainSeparationTag_SealRandomness
    (Activation si) buf k = inl ticket →
  resolveTicket h node buf st i
    = Done (set_infos (set_tsk st k) (<[i := set_Ticket si ticket]> (sectorInfos st))).
Proof.
  intros Hi Hts Hk Hr. unfold resolveTicket. rewrite Hi, Hts. simpl.
  rewrite Hk. simpl. by rewrite Hr.
Qed.

Lemma resolveTicket_lookup_error_panics h node buf st i si e :
  sectorInfos st !! i = Some si →
  ChainGetTipSetByHeight node (Activation si) (tsk st) = (None, Some e) →
  NilTipSetKey h = Panic →
  resolveTicket h node buf st i = Panic.
Proof.
  intros Hi Hts Hk. unfold resolveTicket. rewrite Hi, Hts. simpl. by rewrite Hk.
Qed.

(** C4.  A sector whose committed-sector query answers nil and whose
    pre-commit query answers a record is classified: the iteration appends
    to the slice one [SectorInfo] with the pre-commit epoch as its
    activation and with the seal proof and sealed CID of the pre-commit
    record, and leaves the failure list as it was. *)
Theorem C4_precommit_branch node maddr st sector preCommitInfo :
  StateSectorGetInfo node maddr (uint64 sector) EmptyTSK = inl None →
  StateSectorPreCommitInfo node maddr (uint64 sector) EmptyTSK
    = inl preCommitInfo →
  ∃ st' si,
    classifySector node maddr st sector = Done st' ∧
    sectorInfos st' = sectorInfos st ++ [si] ∧
    failtSectors st' = failtSectors st ∧
    SectorNumber si = uint64 sector ∧
    Activation si = SectorPreCommitOnChainInfo.PreCommitEpoch preCommitInfo ∧
    SealProof si = SectorPreCommitInfo.SealProof
                     (SectorPreCommitOnChainInfo.Info preCommitInfo) ∧
    SealedCID si = SectorPreCommitInfo.SealedCID
                     (SectorPreCommitOnChainInfo.Info preCommitInfo) ∧
    Ticket si = None.
Proof.
  intros Hsi Hpre. unfold classifySector. rewrite Hsi, Hpre.
  eexists _, _. split; [done|]. by simpl.
Qed.

Lemma C4_witness :
  StateSectorGetInfo demo_node "f01000" (uint64 3) EmptyTSK = inl None ∧
  ∃ st' si,
    classifySector demo_node "f01000" demo_locals 3 = Done st' ∧
    sectorInfos st' = sectorInfos demo_locals ++ [si] ∧
    failtSectors st' = failtSectors demo_locals ∧
    SectorNumber si = uint64 3 ∧ Activation si = 150%Z ∧ SealProof si = 8%Z ∧
    SealedCID si = "bagboea3" ∧ Ticket si = None.
Proof.
  split; [reflexivity|].
  exact (C4_precommit_branch demo_node "f01000" demo_locals 3 _ eq_refl eq_refl).
Defined.

(** C10.  In the pre-committed branch the answer of the pre-commit query
    is not tested for presence: an error sends the sector to the failure
    list, and every answer without an error, the zero-valued record of an
    absent pre-commit included, has its fields read and is appended to the
    slice as a [SectorInfo], with no failure recorded.  In every iteration
    the failure list grows exactly on a query error. *)
Theorem C10_no_presence_check node maddr st sector :
  StateSectorGetInfo node maddr (uint64 sector) EmptyTSK = inl None →
  (∃ st', classifySector node maddr st sector = Done st' ∧
     match StateSectorPreCommitInfo node maddr (uint64 sector) EmptyTSK with
     | inr err =>
         sectorInfos st' = sectorInfos st ∧
         failtSectors st' = failtSectors st ++ [uint64 sector] ∧
         logged st' = logged st ++ [LogPreCommitInfo sector err]
     | inl pre =>
         sectorInfos st' = sectorInfos st ++
           [{| SectorNumber := uint64 sector;
               Activation := SectorPreCommitOnChainInfo.PreCommitEpoch pre;
               Ticket := None;
               SealProof := SectorPreCommitInfo.SealProof
                              (SectorPreCommitOnChainInfo.Info pre);
               SealedCID := SectorPreCommitInfo.SealedCID
                              (SectorPreCommitOnChainInfo.Info pre) |}] ∧
         failtSectors st' = failtSectors st ∧
         logged st' = logged st
     end) ∧
  ∀ st', classifySector node maddr st sector = Done st' →
    (query_error node maddr sector ∧
       failtSectors st' = failtSectors st ++ [uint64 sector] ∧
       sectorInfos st' = sectorInfos st) ∨
    (¬ query_error node maddr sector ∧ failtSectors st' = failtSectors st).
Proof.
  intros Hsi. split; [|apply classifySector_failure].
  unfold classifySector. rewrite Hsi.
  destruct (StateSectorPreCommitInfo node maddr (uint64 sector) EmptyTSK)
    as [pre|err]; by eexists.
Qed.

Lemma C10_witness :
  StateSectorGetInfo demo_node "f01000" (uint64 8) EmptyTSK = inl None ∧
  StateSectorPreCommitInfo demo_node "f01000" (uint64 8) EmptyTSK
    = inl zero_precommit ∧
  ∃ st', classifySector demo_node "f01000" demo_locals 8 = Done st' ∧
    sectorInfos st' = sectorInfos demo_locals ++
      [{| SectorNumber := 8; Activation := 0; Ticket := None;
          SealProof := 0; SealedCID := "" |}] ∧
    failtSectors st' = failtSectors demo_locals ∧
    logged st' = logged demo_locals.
Proof.
  split; [reflexivity|]. split; [reflexivity|].
  exact (proj1 (C10_no_presence_check demo_node "f01000" demo_locals 8 eq_refl)).
Defined.

(** C5.  In every iteration that gets past [ts.Key()], [tsk] becomes the
    key [k] of the tipset pointer the lookup returned (the key of the
    tipset retrieved, when there is one) before the randomness is derived;
    the derivation is made at [k], and [tsk] keeps [k] whether the
    derivation succeeds or fails. *)
Theorem C5_tsk_advances_before_randomness h node buf st i sectorInfo ts err k :
  sectorInfos st !! i = Some sectorInfo →
  ChainGetTipSetByHeight node (Activation sectorInfo) (tsk st) = (ts, err) →
  TipSet_Key h ts = Done k →
  (∀ t, ts = Some t → k = Key t) ∧
  ∃ st',
    resolveTicket h node buf st i = Done st' ∧
    tsk st' = k ∧
    match StateGetRandomnessFromTickets node DomainSeparationTag_SealRandomness
            (Activation sectorInfo) buf k with
    | inr e =>
        sectorInfos st' = sectorInfos st ∧
        failtSectors st' = failtSectors st ++ [SectorNumber sectorInfo]
    | inl ticket =>
        sectorInfos st' = <[i := set_Ticket sectorInfo ticket]> (sectorInfos st) ∧
        failtSectors st' = failtSectors st
    end.
Proof.
  intros Hi Hts Hk. split.
  - intros t ->. simpl in Hk. by injection Hk.
  - unfold resolveTicket. rewrite Hi, Hts. simpl. rewrite Hk. simpl.
    destruct (StateGetRandomnessFromTickets _ _ _ _ _) as [ticket|e];
      by eexists.
Qed.

Lemma C5_witness :
  sectorInfos demo_locals !! 0 = Some info5 ∧
  ChainGetTipSetByHeight node_but_200 (Activation info5) (tsk demo_locals)
    = (Some {| Key := "ts200"; Height := 200 |}, None) ∧
  ∃ st',
    resolveTicket host_but_200 node_but_200 [x43] demo_locals 0 = Done st' ∧
    tsk st' = "ts200" ∧
    sectorInfos st' = sectorInfos demo_locals ∧
    failtSectors st' = [5%Z].
Proof.
  split; [reflexivity|]. split; [reflexivity|].
  destruct (C5_tsk_advances_before_randomness host_but_200 node_but_200 [x43]
              demo_locals 0 info5 (Some {| Key := "ts200"; Height := 200 |}) None
              "ts200" eq_refl eq_refl eq_refl)
    as (_ & st' & Hst' & Htsk & Hi & Hf).
  exists st'. repeat split; assumption.
Defined.

(** C6.  Sector [sectorInfo] sits in slot [i] without a ticket, and when
    the loop reaches it the randomness derivation fails.  That iteration
    leaves every object of the slice as it was (so no other sector's ticket
    changes), appends the sector number to the failure list and logs the
    error; at the end of the loop slot [i] still holds the sector without
    a ticket and the number is still in the failure list. *)
Theorem C6_randomness_failure_is_local
    h node buf st i sectorInfo st_i ts e k err st_end :
  sectorInfos st !! i = Some sectorInfo →
  Ticket sectorInfo = None →
  forRange (resolveTicket h node buf) st (seq 0 i) = Done st_i →
  ChainGetTipSetByHeight node (Activation sectorInfo) (tsk st_i) = (ts, e) →
  TipSet_Key h ts = Done k →
  StateGetRandomnessFromTickets node DomainSeparationTag_SealRandomness
    (Activation sectorInfo) buf k = inr err →
  resolveTickets h node buf st = Done st_end →
  (∃ st', resolveTicket h node buf st_i i = Done st' ∧
          sectorInfos st' = sectorInfos st_i ∧
          failtSectors st' = failtSectors st_i ++ [SectorNumber sectorInfo] ∧
          logged st' = logged st_i ++ [LogRandomness (SectorNumber sectorInfo) err]) ∧
  sectorInfos st_end !! i = Some sectorInfo ∧
  Ticket <$> sectorInfos st_end !! i = Some None ∧
  SectorNumber sectorInfo ∈ failtSectors st_end.
Proof.
  intros Hi Hnone Hbefore Hts Hk Herr Hend.
  assert (Hslot : sectorInfos st_i !! i = Some sectorInfo).
  { rewrite (forRange_resolve_other h node buf st (seq 0 i) st_i i); [done| |done].
    rewrite elem_of_seq. lia. }
  assert (Hstep : resolveTicket h node buf st_i i
                  = Done (fail_sector (set_tsk st_i k) (SectorNumber sectorInfo)
                            (LogRandomness (SectorNumber sectorInfo) err))).
  { unfold resolveTicket. rewrite Hslot, Hts. simpl. rewrite Hk. simpl.
    by rewrite Herr. }
  split; [by eexists|].
  unfold resolveTickets in Hend.
  pose proof (lookup_lt_Some _ _ _ Hi) as Hlt.
  replace (length (sectorInfos st)) with (i + S (length (sectorInfos st) - S i))
    in Hend by lia.
  rewrite seq_app, forRange_app, Hbefore in Hend. simpl in Hend.
  rewrite Hstep in Hend. simpl in Hend.
  assert (Hsame : sectorInfos st_end !! i = Some sectorInfo).
  { apply (forRange_resolve_other _ _ _ _ _ _ i) in Hend as ->; [done|].
    rewrite elem_of_seq. lia. }
  split_and!; [done|by rewrite Hsame; simpl; rewrite Hnone|].
  - apply forRange_resolve_failt in Hend. simpl in Hend.
    destruct Hend as [rest ->]. set_solver.
Qed.

Lemma C6_witness :
  sectorInfos demo_locals !! 0 = Some info5 ∧
  resolveTickets host_but_200 node_but_200 [x43] demo_locals
    = Done {| sectorInfos := [info5; set_Ticket info3 (Some [x96])];
              failtSectors := [5%Z]; tsk := "ts150";
              logged := [LogRandomness 5 (Err "randomness not available")] |} ∧
  sectorInfos {| sectorInfos := [info5; set_Ticket info3 (Some [x96])];
                 failtSectors := [5%Z]; tsk := "ts150";
                 logged := [LogRandomness 5 (Err "randomness not available")] |}
    !! 0 = Some info5.
Proof.
  split; [reflexivity|]. split; [reflexivity|].
  exact (proj1 (proj2 (C6_randomness_failure_is_local host_but_200 node_but_200 [x43]
    demo_locals 0 info5 demo_locals (Some {| Key := "ts200"; Height := 200 |}) None
    "ts200" (Err "randomness not available") _
    eq_refl eq_refl eq_refl eq_refl eq_refl eq_refl eq_refl))).
Defined.

(** ** The sector list of the record *)

Lemma SectorNumber_erase (l : SectorInfos) :
  SectorNumber <$> (erase <$> l) = SectorNumber <$> l.
Proof. rewrite <- list_fmap_compose. by apply list_fmap_ext. Qed.

(** Distinct requested numbers give distinct sector numbers in the
    record. *)
Lemma Action_numbers_NoDup h miner sectors rec :
  SortContract (sort_Sort h) →
  output (Action h miner sectors) = Some rec →
  NoDup sectors → Forall is_int sectors →
  NoDup (SectorNumber <$> RecoveryParams.SectorInfos rec).
Proof.
  intros Hsort Hout Hnd Hint.
  destruct (Action_sector_list _ _ _ _ Hsort Hout) as (maddr & node & _ & _ & Hl).
  rewrite <- SectorNumber_erase, Hl.
  destruct (Hsort (omap (spec_classify node maddr) sectors)) as [Hp _].
  rewrite Hp.
  eapply sublist_NoDup; [|apply spec_classify_numbers].
  by apply uint64_NoDup.
Qed.

(** Every adjacent pair of the record's list is [ordered]. *)
Lemma Action_adjacent h miner sectors rec i a b :
  SortContract (sort_Sort h) →
  output (Action h miner sectors) = Some rec →
  RecoveryParams.SectorInfos rec !! i = Some a →
  RecoveryParams.SectorInfos rec !! S i = Some b →
  ordered a b.
Proof.
  intros Hsort Hout Ha Hb.
  destruct (Action_sector_list _ _ _ _ Hsort Hout) as (maddr & node & _ & _ & Hl).
  change (ordered (erase a) (erase b)).
  eapply (SortContract_adjacent _ _ i); [done|..]; rewrite <- Hl, list_lookup_fmap.
  - by rewrite Ha.
  - by rewrite Hb.
Qed.

(** C2 (as the code has it).  The record's sector list holds one entry for
    every occurrence of a requested number that the classifier accepted:
    tickets aside, it is a rearrangement of the classifier's results over
    the input list.  The sector numbers are pairwise distinct when the
    requested numbers are. *)
Theorem C2_one_entry_per_classified_occurrence h miner sectors rec :
  SortContract (sort_Sort h) →
  output (Action h miner sectors) = Some rec →
  ∃ maddr node,
    NewFromString h miner = inl maddr ∧ GetFullNodeAPI h = inl node ∧
    erase <$> RecoveryParams.SectorInfos rec
      ≡ₚ omap (spec_classify node maddr) sectors ∧
    (NoDup sectors → Forall is_int sectors →
     NoDup (SectorNumber <$> RecoveryParams.SectorInfos rec)).
Proof.
  intros Hsort Hout.
  destruct (Action_sector_list _ _ _ _ Hsort Hout) as (maddr & node & Hm & Hn & Hl).
  exists maddr, node. split_and!; [done..| |].
  - rewrite Hl. apply Hsort.
  - by apply (Action_numbers_NoDup h miner).
Qed.

(** C2 fails as stated: sector 5 requested twice is listed twice. *)
Lemma C2_repeated_request_listed_twice :
  [5%Z; 5%Z] ≠ [] ∧
  ∃ rec, output (Action demo_host "f01000" [5%Z; 5%Z]) = Some rec ∧
         SectorNumber <$> RecoveryParams.SectorInfos rec = [5%Z; 5%Z] ∧
         ¬ NoDup (SectorNumber <$> RecoveryParams.SectorInfos rec).
Proof.
  split; [done|]. eexists. split; [by vm_compute|]. split; [done|].
  simpl. intros [Hin _]%NoDup_cons. apply Hin. constructor.
Qed.

(** C3 (as the code has it).  For every adjacent pair [(a, b)] of the
    record's list, [a] is active later than [b], or as late with a sector
    number not above [b]'s; the number is strictly below when the
    requested numbers are pairwise distinct. *)
Theorem C3_sorted_by_activation h miner sectors rec i a b :
  SortContract (sort_Sort h) →
  output (Action h miner sectors) = Some rec →
  RecoveryParams.SectorInfos rec !! i = Some a →
  RecoveryParams.SectorInfos rec !! S i = Some b →
  (Activation a > Activation b ∨
   (Activation a = Activation b ∧ SectorNumber a ≤ SectorNumber b))%Z ∧
  (NoDup sectors → Forall is_int sectors →
   (Activation a > Activation b ∨
    (Activation a = Activation b ∧ SectorNumber a < SectorNumber b))%Z).
Proof.
  intros Hsort Hout Ha Hb.
  pose proof (Action_adjacent _ _ _ _ _ _ _ Hsort Hout Ha Hb) as Hord.
  apply ordered_spec in Hord. split; [done|].
  intros Hnd Hint.
  pose proof (Action_numbers_NoDup _ _ _ _ Hsort Hout Hnd Hint) as Hnums.
  assert (SectorNumber a ≠ SectorNumber b) as Hne.
  { intros Heq.
    assert (i = S i); [|lia].
    eapply (NoDup_lookup _ _ _ (SectorNumber a) Hnums);
      rewrite list_lookup_fmap; [by rewrite Ha|by rewrite Hb, Heq]. }
  lia.
Qed.

(** C3 fails as stated: with sector 5 requested twice the first two
    entries have the same activation epoch and the same number. *)
Lemma C3_repeated_request_not_strict :
  ∃ rec a b,
    output (Action demo_host "f01000" [5%Z; 5%Z]) = Some rec ∧
    RecoveryParams.SectorInfos rec !! 0 = Some a ∧
    RecoveryParams.SectorInfos rec !! 1 = Some b ∧
    ¬ (Activation a > Activation b ∨
       (Activation a = Activation b ∧ SectorNumber a < SectorNumber b))%Z.
Proof.
  do 3 eexists. split; [by vm_compute|]. split; [done|]. split; [done|].
  simpl. lia.
Qed.

Lemma C2_witness :
  SortContract (sort_Sort demo_host) ∧
  ∃ maddr node,
    NewFromString demo_host "f01000" = inl maddr ∧
    GetFullNodeAPI demo_host = inl node ∧
    erase <$> [set_Ticket info5 (Some [xc8]); set_Ticket info3 (Some [x96])]
      ≡ₚ omap (spec_classify node maddr) [3%Z; 9%Z; 5%Z] ∧
    (NoDup [3%Z; 9%Z; 5%Z] → Forall is_int [3%Z; 9%Z; 5%Z] →
     NoDup (SectorNumber <$>
              [set_Ticket info5 (Some [xc8]); set_Ticket info3 (Some [x96])])).
Proof.
  split; [exact reference_sort_contract|].
  exact (C2_one_entry_per_classified_occurrence demo_host "f01000" [3%Z; 9%Z; 5%Z]
           demo_record
           reference_sort_contract eq_refl).
Defined.

Lemma C3_witness :
  SortContract (sort_Sort demo_host) ∧
  (Activation (set_Ticket info5 (Some [xc8]))
     > Activation (set_Ticket info3 (Some [x96])) ∨
   (Activation (set_Ticket info5 (Some [xc8]))
      = Activation (set_Ticket info3 (Some [x96])) ∧
    SectorNumber (set_Ticket info5 (Some [xc8]))
      ≤ SectorNumber (set_Ticket info3 (Some [x96]))))%Z.
Proof.
  split; [exact reference_sort_contract|].
  exact (proj1 (C3_sorted_by_activation demo_host "f01000" [3%Z; 9%Z; 5%Z]
           demo_record
           0 _ _ reference_sort_contract eq_refl eq_refl eq_refl)).
Defined.

(** ** Writing the record *)


Lemma exit_writeOutput h maddr start st rec :
  exit (writeOutput h maddr start st rec)
  = match MarshalIndent h rec with
    | inr err => ExitErr err
    | inl out =>
        match Expand h (output_name h maddr) with
        | inr err => ExitErr err
        | inl of_ =>
            match WriteFile h of_ out with
            | Some err => ExitErr err
            | None => ExitNil
            end
        end
    end.
Proof.
  unfold writeOutput, output_name. destruct (MarshalIndent h rec); [|done].
  destruct (Expand h _); [|done]. by destruct (WriteFile h _ _).
Qed.


(** No run panics where [Key] guards against a nil tipset, or where every
    lookup returns a tipset. *)
Lemma Action_key_safe h miner sectors :
  (∀ node, GetFullNodeAPI h = inl node → key_safe h node) →
  exit (Action h miner sectors) ≠ ExitPanic.
Proof.
  intros Hsafe. unfold Action.
  destruct (NewFromString h miner) as [maddr|]; [|done].
  destruct (GetFullNodeAPI h) as [node|] eqn:Hn; [|done].
  destruct (StateMinerInfo node maddr EmptyTSK) as [mi|]; [|done].
  destruct (classifySectors_total node maddr init_locals sectors) as [st1 ->].
  destruct (MarshalCBOR h maddr) as [buf|]; [|done].
  fold (sorted_locals h st1).
  destruct (resolveTickets_total h node buf (sorted_locals h st1) (Hsafe _ eq_refl))
    as [st2 ->].
  rewrite exit_writeOutput. destruct (MarshalIndent h _); [|done].
  destruct (Expand h _); [|done]. by destruct (WriteFile h _ _).
Qed.




(** C9 (as the code has it).  A run that does not panic returns the error
    of the first of its seven returning steps that fails (address parsing,
    connection to the node, sector-size query, address serialization,
    marshalling of the record, path expansion, file write) and nil when
    none fails.  The answers of the per-sector queries reach the status
    only through the record marshalled and the bytes written: on a host
    where the failure of these two calls does not depend on them, a run
    against a node that answers the per-sector queries in any other way
    returns nil exactly when this one does. *)
Theorem C9_exit_status h miner sectors :
  exit (Action h miner sectors) ≠ ExitPanic →
  exit (Action h miner sectors)
  = match returned_error h miner (output (Action h miner sectors)) with
    | Some e => ExitErr e
    | None => ExitNil
    end ∧
  ∀ node node',
    GetFullNodeAPI h = inl node →
    same_miner_info node node' →
    status_blind h →
    exit (Action (with_node h node') miner sectors) ≠ ExitPanic →
    (exit (Action (with_node h node') miner sectors) = ExitNil
     ↔ exit (Action h miner sectors) = ExitNil).
Proof.
  intros Hexit. split.
  - revert Hexit. unfold Action, returned_error.
    destruct (NewFromString h miner) as [maddr|]; [|done].
    destruct (GetFullNodeAPI h) as [node|]; [|done].
    destruct (StateMinerInfo node maddr EmptyTSK) as [mi|]; [|done].
    destruct (classifySectors node maddr init_locals sectors) as [st1|]; [|done].
    destruct (MarshalCBOR h maddr) as [buf|]; [|done].
    destruct (resolveTickets h node buf _) as [st2|]; [|done].
    intros _. rewrite output_writeOutput, exit_writeOutput.
    destruct (MarshalIndent h _); [|done].
    destruct (Expand h _); [|done]. by destruct (WriteFile h _ _).
  - intros node node' Hn Hmi [Hjson Hwrite] Hexit'.
    revert Hexit Hexit'. unfold Action.
    cbn [with_node NewFromString GetFullNodeAPI MarshalCBOR sort_Sort time_start].
    destruct (NewFromString h miner) as [maddr|]; [|done].
    rewrite Hn, <- (Hmi maddr EmptyTSK).
    destruct (StateMinerInfo node maddr EmptyTSK) as [mi|]; [|done].
    destruct (classifySectors node maddr init_locals sectors) as [st1|]; [|done].
    destruct (classifySectors node' maddr init_locals sectors) as [st1'|]; [|done].
    destruct (MarshalCBOR h maddr) as [buf|]; [|done].
    destruct (resolveTickets h node buf _) as [st2|]; [|done].
    destruct (resolveTickets (with_node h node') node' buf _) as [st2'|]; [|done].
    intros _ _. rewrite !exit_writeOutput. unfold output_name.
    cbn [with_node MarshalIndent Expand WriteFile AddressString].
    destruct (MarshalIndent h (assemble maddr mi st2')) as [out'|] eqn:Hj';
      destruct (MarshalIndent h (assemble maddr mi st2)) as [out|] eqn:Hj.
    + destruct (Expand h _) as [of_|]; [|done].
      destruct (WriteFile h of_ out') eqn:Hw'; destruct (WriteFile h of_ out) eqn:Hw;
        try done.
      * apply (Hwrite _ _ out') in Hw. congruence.
      * apply (Hwrite _ _ out) in Hw'. congruence.
    + destruct (Hjson _ (assemble maddr mi st2) _ Hj') as [o Ho]. congruence.
    + destruct (Hjson _ (assemble maddr mi st2') _ Hj) as [o Ho]. congruence.
    + done.
Qed.

(** C9 fails as stated: the address and the sector size are resolved and
    the command still returns an error, that of the file write. *)
Lemma C9_write_error_is_returned :
  NewFromString host_disk_full "f01000" = inl "f01000" ∧
  StateMinerInfo demo_node "f01000" EmptyTSK = inl demo_miner_info ∧
  exit (Action host_disk_full "f01000" [5%Z])
    = ExitErr (Err "no space left on device").
Proof. by vm_compute. Qed.

Lemma C9_witness :
  exit (Action demo_host "f01000" [3%Z; 9%Z; 5%Z]) ≠ ExitPanic ∧
  exit (Action demo_host "f01000" [3%Z; 9%Z; 5%Z]) = ExitNil ∧
  same_miner_info demo_node (demo_node_with no_tipset no_randomness) ∧
  status_blind demo_host ∧
  exit (Action (with_node demo_host (demo_node_with no_tipset no_randomness))
          "f01000" [3%Z; 9%Z; 5%Z]) = ExitNil.
Proof.
  assert (Hexit : exit (Action demo_host "f01000" [3%Z; 9%Z; 5%Z]) ≠ ExitPanic)
    by discriminate.
  assert (Hinfo : same_miner_info demo_node (demo_node_with no_tipset no_randomness))
    by (intros a k; reflexivity).
  assert (Hblind : status_blind demo_host).
  { split; [intros r1 r2 out _; by eexists|by intros p b1 b2 _]. }
  destruct (C9_exit_status demo_host "f01000" [3%Z; 9%Z; 5%Z] Hexit) as [Hstatus Hany].
  split; [exact Hexit|]. split; [exact Hstatus|]. split; [exact Hinfo|].
  split; [exact Hblind|].
  apply (Hany demo_node (demo_node_with no_tipset no_randomness) eq_refl Hinfo Hblind);
    [discriminate|exact Hstatus].
Defined.

(** ** Two runs with the same answers *)

Lemma forRange_ext {S X} (b1 b2 : S → X → outcome S) s xs :
  (∀ s x, b1 s x = b2 s x) → forRange b1 s xs = forRange b2 s xs.
Proof.
  intros Hb. revert s. induction xs as [|x xs IH]; intros s; simpl; [done|].
  rewrite Hb. destruct (b2 s x); simpl; [apply IH|done].
Qed.

Lemma classifySectors_same n1 n2 maddr st sectors :
  same_node n1 n2 →
  classifySectors n1 maddr st sectors = classifySectors n2 maddr st sectors.
Proof.
  intros (_ & Hinfo & Hpre & _). apply forRange_ext. intros s x.
  unfold classifySector. by rewrite Hinfo, Hpre.
Qed.

Lemma resolveTickets_same h1 h2 n1 n2 buf st :
  NilTipSetKey h1 = NilTipSetKey h2 → same_node n1 n2 →
  resolveTickets h1 n1 buf st = resolveTickets h2 n2 buf st.
Proof.
  intros Hnil (_ & _ & _ & Hts & Hrand). apply forRange_ext. intros s i.
  unfold resolveTicket, TipSet_Key.
  destruct (sectorInfos s !! i) as [si|]; [|done].
  rewrite Hts, Hnil.
  destruct (ChainGetTipSetByHeight n2 (Activation si) (tsk s)) as [[ts|] e];
    simpl; [by rewrite Hrand|].
  destruct (NilTipSetKey h2); simpl; [by rewrite Hrand|done].
Qed.

Lemma writeOutput_same h1 h2 maddr st rec :
  (∀ a, AddressString h1 a = AddressString h2 a) →
  (∀ r, MarshalIndent h1 r = MarshalIndent h2 r) →
  (∀ p, Expand h1 p = Expand h2 p) →
  (∀ p b, WriteFile h1 p b = WriteFile h2 p b) →
  observable (writeOutput h1 maddr (time_start h1) st rec)
  = observable (writeOutput h2 maddr (time_start h2) st rec).
Proof.
  intros Hs Hj He Hw. unfold writeOutput. rewrite Hj, Hs.
  destruct (MarshalIndent h2 rec) as [out|]; [|done].
  rewrite He. destruct (Expand h2 _) as [of_|]; [|done].
  rewrite Hw. by destruct (WriteFile h2 of_ out).
Qed.

(** The record depends on the answers of the node and of the address,
    sort and json packages only. *)
Lemma Action_output_same h1 h2 miner sectors :
  same_answers h1 h2 →
  output (Action h1 miner sectors) = output (Action h2 miner sectors).
Proof.
  intros (Hparse & Hnode & Hcbor & Hnil & Hsort & Hjson).
  unfold Action. rewrite Hparse.
  destruct (NewFromString h2 miner) as [maddr|]; [|done].
  destruct (GetFullNodeAPI h1) as [n1|e1], (GetFullNodeAPI h2) as [n2|e2];
    [|done|done|by subst].
  pose proof Hnode as (Hmi & _). rewrite Hmi.
  destruct (StateMinerInfo n2 maddr EmptyTSK) as [mi|]; [|done].
  rewrite (classifySectors_same n1 n2) by done.
  destruct (classifySectors n2 maddr init_locals sectors) as [st1|]; [|done].
  rewrite Hcbor, Hsort.
  destruct (MarshalCBOR h2 maddr) as [buf|]; [|done].
  rewrite (resolveTickets_same h1 h2 n1 n2) by done.
  destruct (resolveTickets h2 n2 buf _) as [st2|]; [|done].
  by rewrite !output_writeOutput.
Qed.

(** Apart from the elapsed time, a run is determined by the answers it
    receives. *)
Lemma Action_same h1 h2 miner sectors :
  same_answers h1 h2 → same_files h1 h2 →
  observable (Action h1 miner sectors) = observable (Action h2 miner sectors).
Proof.
  intros (Hparse & Hnode & Hcbor & Hnil & Hsort & Hjson) (Hstr & Hexp & Hwrite).
  unfold Action. rewrite Hparse.
  destruct (NewFromString h2 miner) as [maddr|]; [|done].
  destruct (GetFullNodeAPI h1) as [n1|e1], (GetFullNodeAPI h2) as [n2|e2];
    [|done|done|by subst].
  pose proof Hnode as (Hmi & _). rewrite Hmi.
  destruct (StateMinerInfo n2 maddr EmptyTSK) as [mi|]; [|done].
  rewrite (classifySectors_same n1 n2) by done.
  destruct (classifySectors n2 maddr init_locals sectors) as [st1|]; [|done].
  rewrite Hcbor, Hsort.
  destruct (MarshalCBOR h2 maddr) as [buf|]; [|done].
  rewrite (resolveTickets_same h1 h2 n1 n2) by done.
  destruct (resolveTickets h2 n2 buf _) as [st2|]; [|done].
  by apply writeOutput_same.
Qed.

(** C8.  Two runs on the same miner string and the same sector list that
    receive the same answers from the node (and from the address, sort and
    json packages), whatever their clocks read, assemble the same record
    and serialize it to the same bytes; when the file system answers alike
    as well, they write the same file and end with the same status. *)
Theorem C8_same_answers_same_output h1 h2 miner sectors :
  same_answers h1 h2 →
  output (Action h1 miner sectors) = output (Action h2 miner sectors) ∧
  serialized h1 (Action h1 miner sectors) = serialized h2 (Action h2 miner sectors) ∧
  (same_files h1 h2 →
   written (Action h1 miner sectors) = written (Action h2 miner sectors) ∧
   exit (Action h1 miner sectors) = exit (Action h2 miner sectors)).
Proof.
  intros Hsame. pose proof (Action_output_same _ _ miner sectors Hsame) as Hout.
  split_and!; [done| |].
  - unfold serialized. rewrite Hout.
    destruct Hsame as (_ & _ & _ & _ & _ & Hjson).
    destruct (output (Action h2 miner sectors)); simpl; [by rewrite Hjson|done].
  - intros Hfiles. pose proof (Action_same _ _ miner sectors Hsame Hfiles) as Hobs.
    unfold observable in Hobs. by injection Hobs as Hexit _ _ Hwr _.
Qed.

Lemma C8_witness :
  same_answers demo_host host_other_clock ∧
  time_start demo_host ≠ time_start host_other_clock ∧
  serialized demo_host (Action demo_host "f01000" [3%Z; 9%Z; 5%Z])
    = serialized host_other_clock (Action host_other_clock "f01000" [3%Z; 9%Z; 5%Z]) ∧
  written (Action demo_host "f01000" [3%Z; 9%Z; 5%Z])
    = written (Action host_other_clock "f01000" [3%Z; 9%Z; 5%Z]).
Proof.
  assert (Hsame : same_answers demo_host host_other_clock) by (repeat split).
  assert (Hfiles : same_files demo_host host_other_clock) by (repeat split).
  split; [exact Hsame|]. split; [discriminate|].
  destruct (C8_same_answers_same_output demo_host host_other_clock "f01000"
              [3%Z; 9%Z; 5%Z] Hsame) as (_ & Hser & Hrest).
  split; [exact Hser|]. exact (proj1 (Hrest Hfiles)).
Defined.

(** * Further properties of the code *)

(** ** [Len], [Swap] and [Less] *)

(** X1.  For two indices below [Len], [Swap] exchanges the two elements,
    leaves every other slot and the length as they are, and undoes itself
    when applied again. *)
Theorem X1_Swap_exchanges (t : SectorInfos) i j :
  i < Len t → j < Len t →
  Len (Swap t i j) = Len t ∧
  Swap t i j !! i = t !! j ∧
  Swap t i j !! j = t !! i ∧
  (∀ k, k ≠ i → k ≠ j → Swap t i j !! k = t !! k) ∧
  Swap (Swap t i j) i j = t.
Proof.
  unfold Len. intros Hi Hj.
  destruct (lookup_lt_is_Some_2 t i Hi) as [a Ha].
  destruct (lookup_lt_is_Some_2 t j Hj) as [b Hb].
  assert (Hsw : Swap t i j = <[i := b]> (<[j := a]> t)).
  { unfold Swap. by rewrite Ha, Hb. }
  assert (Hli : Swap t i j !! i = Some b).
  { rewrite Hsw. apply list_lookup_insert_eq. by rewrite length_insert. }
  assert (Hlj : Swap t i j !! j = Some a).
  { rewrite Hsw. destruct (decide (i = j)) as [->|Hne].
    - rewrite list_lookup_insert_eq by (by rewrite length_insert). congruence.
    - rewrite list_lookup_insert_ne by done. by apply list_lookup_insert_eq. }
  assert (Hlk : ∀ k, k ≠ i → k ≠ j → Swap t i j !! k = t !! k).
  { intros k Hki Hkj. rewrite Hsw. by rewrite !list_lookup_insert_ne. }
  split_and!; [by rewrite Hsw, !length_insert|congruence|congruence|done|].
  apply list_eq. intros k. unfold Swap at 1. rewrite Hli, Hlj.
  assert (Hlen : length (Swap t i j) = length t) by (by rewrite Hsw, !length_insert).
  destruct (decide (k = i)) as [->|Hki].
  - rewrite list_lookup_insert_eq; [done|]. rewrite length_insert. lia.
  - rewrite list_lookup_insert_ne by done.
    destruct (decide (k = j)) as [->|Hkj].
    + rewrite list_lookup_insert_eq; [done|]. lia.
    + rewrite list_lookup_insert_ne by done. by apply Hlk.
Qed.

Lemma X1_witness :
  1 < Len [info5; info3; info5] ∧
  Swap [info3; info5; info5] 0 1 = [info5; info3; info5] ∧
  Swap (Swap [info5; info3; info5] 0 1) 0 1 = [info5; info3; info5].
Proof.
  split; [unfold Len; simpl; lia|]. split; [reflexivity|].
  refine (proj2 (proj2 (proj2 (proj2
    (X1_Swap_exchanges [info5; info3; info5] 0 1 _ _)))));
    unfold Len; simpl; lia.
Defined.

(** X2.  On the elements of a slice [Less] is a strict order that leaves
    no two different keys incomparable: it is irreflexive and transitive,
    never holds in both directions, and when it holds in neither the two
    elements have the same activation epoch and the same sector number. *)
Theorem X2_Less_strict_order (t : SectorInfos) i j k a b c :
  t !! i = Some a → t !! j = Some b → t !! k = Some c →
  Less t i i = false ∧
  (Less t i j = true → Less t j i = false) ∧
  (Less t i j = true → Less t j k = true → Less t i k = true) ∧
  (Less t i j = false → Less t j i = false →
   Activation a = Activation b ∧ SectorNumber a = SectorNumber b).
Proof.
  intros Ha Hb Hc. unfold Less. rewrite Ha, Hb, Hc.
  rewrite <- !not_true_iff_false, !less_spec. lia.
Qed.

Lemma X2_witness :
  [info5; info3] !! 0 = Some info5 ∧ [info5; info3] !! 1 = Some info3 ∧
  Less [info5; info3] 0 1 = true ∧
  Less [info5; info3] 1 0 = false.
Proof.
  split; [reflexivity|]. split; [reflexivity|]. split; [reflexivity|].
  exact (proj1 (proj2 (X2_Less_strict_order [info5; info3] 0 1 0
                         info5 info3 info5 eq_refl eq_refl eq_refl)) eq_refl).
Defined.

(** ** The classification loop, sector by sector *)

Lemma classifySectors_failt node maddr st sectors st' :
  classifySectors node maddr st sectors = Done st' →
  failtSectors st' = failtSectors st ++ omap (spec_failure node maddr) sectors.
Proof.
  unfold classifySectors. revert st.
  induction sectors as [|s sectors IH]; intros st; simpl.
  - intros [= <-]. by rewrite app_nil_r.
  - destruct (classifySector node maddr st s) as [st1|] eqn:Hs; simpl; [|done].
    intros Hrest. apply classifySector_Done in Hs as (_ & Hf & _).
    apply IH in Hrest as ->. rewrite Hf, <- app_assoc. f_equal.
    unfold spec_failure. by destruct (spec_classify node maddr s).
Qed.

Lemma classify_or_fail_length node maddr sectors :
  length (omap (spec_classify node maddr) sectors)
  + length (omap (spec_failure node maddr) sectors) = length sectors.
Proof.
  induction sectors as [|s sectors IH]; csimpl; [done|].
  unfold spec_failure at 1.
  destruct (spec_classify node maddr s); csimpl; lia.
Qed.

(** X3.  When the classification loop completes, every requested sector
    is accounted for once: the slice has grown by the classified sectors
    in the order of the request, the failure list by the numbers of the
    others in the order of the request, and the two additions together are
    as many as the sectors requested. *)
Theorem X3_every_request_accounted node maddr st sectors st' :
  classifySectors node maddr st sectors = Done st' →
  sectorInfos st' = sectorInfos st ++ omap (spec_classify node maddr) sectors ∧
  failtSectors st' = failtSectors st ++ omap (spec_failure node maddr) sectors ∧
  length (sectorInfos st') + length (failtSectors st')
  = length (sectorInfos st) + length (failtSectors st) + length sectors.
Proof.
  intros Hc. pose proof (classifySectors_Done _ _ _ _ _ Hc) as [Hi _].
  pose proof (classifySectors_failt _ _ _ _ _ Hc) as Hf.
  split_and!; [done..|]. rewrite Hi, Hf, !length_app.
  pose proof (classify_or_fail_length node maddr sectors). lia.
Qed.

Lemma X3_witness :
  classifySectors demo_node "f01000" init_locals [3%Z; 9%Z; 5%Z]
    = Done {| sectorInfos := [info3; info5]; failtSectors := [9%Z];
              tsk := EmptyTSK;
              logged := [LogSectorGetInfo 9 (Err "sector info not found")] |} ∧
  length [info3; info5] + length [9%Z] = 0 + 0 + length [3%Z; 9%Z; 5%Z].
Proof.
  split; [reflexivity|].
  exact (proj2 (proj2 (X3_every_request_accounted demo_node "f01000" init_locals
                         [3%Z; 9%Z; 5%Z] _ eq_refl))).
Defined.

(** ** Runs that print the summary *)

(** What a run that prints its summary went through. *)
Lemma Action_printed h miner sectors s :
  printed (Action h miner sectors) = Some s →
  ∃ maddr node mi st1 buf st2,
    NewFromString h miner = inl maddr ∧
    GetFullNodeAPI h = inl node ∧
    StateMinerInfo node maddr EmptyTSK = inl mi ∧
    classifySectors node maddr init_locals sectors = Done st1 ∧
    MarshalCBOR h maddr = inl buf ∧
    resolveTickets h node buf (sorted_locals h st1) = Done st2 ∧
    output (Action h miner sectors) = Some (assemble maddr mi st2) ∧
    diagnostics (Action h miner sectors) = logged st2 ∧
    exported s = length (sectorInfos st2) ∧
    failed s = failtSectors st2.
Proof.
  unfold Action.
  destruct (NewFromString h miner) as [maddr|] eqn:Hm; [|done].
  destruct (GetFullNodeAPI h) as [node|] eqn:Hn; [|done].
  destruct (StateMinerInfo node maddr EmptyTSK) as [mi|] eqn:Hmi; [|done].
  destruct (classifySectors node maddr init_locals sectors) as [st1|] eqn:Hc; [|done].
  destruct (MarshalCBOR h maddr) as [buf|] eqn:Hb; [|done].
  fold (sorted_locals h st1).
  destruct (resolveTickets h node buf (sorted_locals h st1)) as [st2|] eqn:Hr; [|done].
  rewrite output_writeOutput. unfold writeOutput.
  destruct (MarshalIndent h _); [|done].
  destruct (Expand h _); [|done]. destruct (WriteFile h _ _); [done|].
  simpl. intros [= <-]. by exists maddr, node, mi, st1, buf, st2.
Qed.

(** ** What the randomness loop writes *)

Lemma erase_fmap_same (l k : SectorInfos) :
  erase <$> l = erase <$> k → Forall2 same_but_Ticket l k.
Proof.
  revert k. induction l as [|a l IH]; intros [|b k]; try done.
  rewrite !fmap_cons. intros Heq.
  injection Heq as Hnumber Hepoch Hproof Hcid Hlk.
  constructor; [done|by apply IH].
Qed.

(** X6.  The randomness loop writes tickets only: when it completes, the
    slice has the same length and every slot holds a sector with the
    number, activation epoch, seal proof and sealed CID it had before; the
    failure list and the log have only been extended. *)
Theorem X6_loop_writes_tickets_only h node buf st st' :
  resolveTickets h node buf st = Done st' →
  Forall2 same_but_Ticket (sectorInfos st) (sectorInfos st') ∧
  failtSectors st `prefix_of` failtSectors st' ∧
  logged st `prefix_of` logged st'.
Proof.
  intros Hr. split_and!.
  - apply erase_fmap_same. symmetry. by eapply resolveTickets_erase.
  - by eapply forRange_resolve_failt.
  - revert Hr. unfold resolveTickets.
    apply (forRange_invariant _ (λ s, logged st `prefix_of` logged s) (λ _, True));
      [|by apply Forall_true|done].
    intros s i s' _ Hinv Hs. etrans; [done|].
    unfold resolveTicket in Hs.
    destruct (sectorInfos s !! i) as [si|]; [|done].
    destruct (ChainGetTipSetByHeight node (Activation si) (tsk s)) as [ts e].
    simpl in Hs. destruct (TipSet_Key h ts) as [k|]; simpl in Hs; [|done].
    destruct (StateGetRandomnessFromTickets _ _ _ _ _); simplify_eq; simpl;
      [done|by apply prefix_app_r].
Qed.

Lemma X6_witness :
  resolveTickets host_but_200 node_but_200 [x43] demo_locals
    = Done {| sectorInfos := [info5; set_Ticket info3 (Some [x96])];
              failtSectors := [5%Z]; tsk := "ts150";
              logged := [LogRandomness 5 (Err "randomness not available")] |} ∧
  Forall2 same_but_Ticket [info5; info3] [info5; set_Ticket info3 (Some [x96])].
Proof.
  split; [reflexivity|].
  exact (proj1 (X6_loop_writes_tickets_only host_but_200 node_but_200 [x43]
                  demo_locals _ eq_refl)).
Defined.

(** A ticket found after the loop in a slice that had none before is an
    answer of the randomness query for that sector's activation epoch. *)
Lemma resolveTickets_answers h node buf st st' :
  Forall (λ si, Ticket si = None) (sectorInfos st) →
  resolveTickets h node buf st = Done st' →
  Forall (λ si, Ticket si = None ∨
                ∃ k, StateGetRandomnessFromTickets node
                       DomainSeparationTag_SealRandomness (Activation si) buf k
                     = inl (Ticket si))
         (sectorInfos st').
Proof.
  intros Hnone. unfold resolveTickets.
  apply (forRange_invariant _
           (λ s, Forall (λ si, Ticket si = None ∨
                   ∃ k, StateGetRandomnessFromTickets node
                          DomainSeparationTag_SealRandomness (Activation si) buf k
                        = inl (Ticket si)) (sectorInfos s)) (λ _, True));
    [|by apply Forall_true|].
  - intros s i s' _ Hinv (si & k & _ & _ & _ & Hr)%resolveTicket_Done.
    destruct (StateGetRandomnessFromTickets _ _ _ _ _) as [ticket|err] eqn:Hq;
      destruct Hr as [-> _]; [|done].
    apply Forall_insert; [done|]. right. by exists k.
  - eapply Forall_impl; [done|]. by left.
Qed.

(** X7.  The command never makes up a ticket: every ticket in the record
    is the answer of [StateGetRandomnessFromTickets] for the seal-randomness
    tag, the activation epoch of that sector and the CBOR bytes of the
    miner address, at some tipset key. *)
Theorem X7_tickets_are_node_answers h miner sectors rec si t :
  SortContract (sort_Sort h) →
  output (Action h miner sectors) = Some rec →
  si ∈ RecoveryParams.SectorInfos rec →
  Ticket si = Some t →
  ∃ maddr node buf k,
    NewFromString h miner = inl maddr ∧
    GetFullNodeAPI h = inl node ∧
    MarshalCBOR h maddr = inl buf ∧
    StateGetRandomnessFromTickets node DomainSeparationTag_SealRandomness
      (Activation si) buf k = inl (Some t).
Proof.
  intros Hsort (maddr & node & mi & st1 & buf & st2 & Hm & Hn & _ & Hc & Hb & Hr & ->)
    %Action_output Hsi Ht.
  apply resolveTickets_answers in Hr.
  - rewrite Forall_forall in Hr. destruct (Hr si Hsi) as [Hnone|[k Hk]]; [congruence|].
    exists maddr, node, buf, k. by rewrite <- Ht.
  - simpl. apply classifySectors_Done in Hc as [-> _]. simpl.
    destruct (Hsort (omap (spec_classify node maddr) sectors)) as [Hp _].
    rewrite Hp. apply spec_classify_all_absent.
Qed.

Lemma X7_witness :
  SortContract (sort_Sort demo_host) ∧
  output (Action demo_host "f01000" [3%Z; 9%Z; 5%Z]) = Some demo_record ∧
  ∃ maddr node buf k,
    NewFromString demo_host "f01000" = inl maddr ∧
    GetFullNodeAPI demo_host = inl node ∧
    MarshalCBOR demo_host maddr = inl buf ∧
    StateGetRandomnessFromTickets node DomainSeparationTag_SealRandomness
      (Activation (set_Ticket info3 (Some [x96]))) buf k = inl (Some [x96]).
Proof.
  split; [exact reference_sort_contract|]. split; [reflexivity|].
  refine (X7_tickets_are_node_answers demo_host "f01000" [3%Z; 9%Z; 5%Z] demo_record
            (set_Ticket info3 (Some [x96])) [x96]
            reference_sort_contract eq_refl _ eq_refl).
  simpl. right. left.
Defined.

(** ** The file, the summary and the exit status *)

(** X8.  The command returns nil exactly when its call of [WriteFile] has
    returned nil, and it prints the summary exactly then; in a run that
    returns an error or panics no call of [WriteFile] has succeeded.  The
    bytes handed to that call are the serialization of the record
    assembled, the name is the expansion of
    [sectors-recovery-<miner>.json]. *)
Theorem X8_file_written_iff_nil h miner sectors :
  (exit (Action h miner sectors) = ExitNil
   ↔ is_Some (written (Action h miner sectors))) ∧
  (is_Some (printed (Action h miner sectors))
   ↔ is_Some (written (Action h miner sectors))) ∧
  ∀ of_ out, written (Action h miner sectors) = Some (of_, out) →
    ∃ maddr rec,
      NewFromString h miner = inl maddr ∧
      output (Action h miner sectors) = Some rec ∧
      MarshalIndent h rec = inl out ∧
      Expand h (output_name h maddr) = inl of_.
Proof.
  assert (Hnone : ∀ e l o,
    (exit (stop e l o) = ExitNil ↔ is_Some (written (stop e l o))) ∨ e = ExitNil).
  { intros [| |] l o; [by right|left..]; simpl; split; try done;
      by intros [? ?]. }
  unfold Action.
  destruct (NewFromString h miner) as [maddr|] eqn:Hm;
    [|by split_and!; [split; [|intros [??]]|split; intros [??]|]].
  destruct (GetFullNodeAPI h) as [node|];
    [|by split_and!; [split; [|intros [??]]|split; intros [??]|]].
  destruct (StateMinerInfo node maddr EmptyTSK) as [mi|];
    [|by split_and!; [split; [|intros [??]]|split; intros [??]|]].
  destruct (classifySectors node maddr init_locals sectors) as [st1|];
    [|by split_and!; [split; [|intros [??]]|split; intros [??]|]].
  destruct (MarshalCBOR h maddr) as [buf|];
    [|by split_and!; [split; [|intros [??]]|split; intros [??]|]].
  destruct (resolveTickets h node buf _) as [st2|];
    [|by split_and!; [split; [|intros [??]]|split; intros [??]|]].
  rewrite output_writeOutput. unfold writeOutput, output_name.
  destruct (MarshalIndent h _) as [out'|] eqn:Hj;
    [|by split_and!; [split; [|intros [??]]|split; intros [??]|]].
  destruct (Expand h _) as [of'|] eqn:He;
    [|by split_and!; [split; [|intros [??]]|split; intros [??]|]].
  destruct (WriteFile h of' out');
    [by split_and!; [split; [|intros [??]]|split; intros [??]|]|].
  simpl. split_and!; [by split; eauto|by split; eauto|].
  intros of_ out [= <- <-]. by eexists _, _.
Qed.

(** X9.  With no sector requested (and the address, the node, the sector
    size and the address bytes obtained) the command assembles the record
    with an empty sector list, logs nothing and does not panic; if it
    prints the summary, that reports 0 sectors exported and none failed. *)
Theorem X9_empty_request h miner maddr node mi buf :
  SortContract (sort_Sort h) →
  NewFromString h miner = inl maddr →
  GetFullNodeAPI h = inl node →
  StateMinerInfo node maddr EmptyTSK = inl mi →
  MarshalCBOR h maddr = inl buf →
  output (Action h miner [])
    = Some {| RecoveryParams.Miner := maddr;
              RecoveryParams.SectorSize := MinerInfo.SectorSize mi;
              RecoveryParams.SectorInfos := [] |} ∧
  diagnostics (Action h miner []) = [] ∧
  exit (Action h miner []) ≠ ExitPanic ∧
  ∀ s, printed (Action h miner []) = Some s → exported s = 0 ∧ failed s = [].
Proof.
  intros Hsort Hm Hn Hmi Hb.
  assert (Hnil : sort_Sort h [] = []).
  { destruct (Hsort []) as [Hp _]. by apply Permutation_nil_r. }
  assert (Hrun : Action h miner []
                 = writeOutput h maddr (time_start h) init_locals
                     (assemble maddr mi init_locals)).
  { apply (Action_run h miner [] maddr node mi init_locals buf); try done.
    unfold sorted_locals, resolveTickets. simpl. by rewrite Hnil. }
  rewrite Hrun. split; [by rewrite output_writeOutput|].
  unfold writeOutput. destruct (MarshalIndent h _); [|done].
  destruct (Expand h _); [|done]. destruct (WriteFile h _ _); [done|].
  simpl. split_and!; [done..|]. by intros summary [= <-].
Qed.

Lemma X9_witness :
  SortContract (sort_Sort demo_host) ∧
  output (Action demo_host "f01000" [])
    = Some {| RecoveryParams.Miner := "f01000";
              RecoveryParams.SectorSize := 34359738368;
              RecoveryParams.SectorInfos := [] |}.
Proof.
  split; [exact reference_sort_contract|].
  exact (proj1 (X9_empty_request demo_host "f01000" "f01000" demo_node demo_miner_info
                  [x43; x00; xe8; x07] reference_sort_contract
                  eq_refl eq_refl eq_refl eq_refl)).
Defined.

(** ** Sector numbers stay in range *)

Lemma uint64_is_uint64 x : is_uint64 (uint64 x).
Proof. unfold is_uint64, uint64. apply Z.mod_pos_bound. lia. Qed.

Lemma spec_classify_is_uint64 node maddr sectors :
  Forall (λ si, is_uint64 (SectorNumber si)) (omap (spec_classify node maddr) sectors).
Proof.
  apply Forall_forall. intros si (s & _ & Hs)%list_elem_of_omap.
  rewrite (spec_classify_SectorNumber _ _ _ _ Hs). apply uint64_is_uint64.
Qed.

Lemma spec_failure_is_uint64 node maddr sectors :
  Forall is_uint64 (omap (spec_failure node maddr) sectors).
Proof.
  apply Forall_forall. intros n (s & _ & Hs)%list_elem_of_omap.
  unfold spec_failure in Hs. destruct (spec_classify node maddr s); [done|].
  injection Hs as <-. apply uint64_is_uint64.
Qed.

Lemma resolveTickets_is_uint64 h node buf st st' :
  Forall (λ si, is_uint64 (SectorNumber si)) (sectorInfos st) →
  Forall is_uint64 (failtSectors st) →
  resolveTickets h node buf st = Done st' →
  Forall (λ si, is_uint64 (SectorNumber si)) (sectorInfos st') ∧
  Forall is_uint64 (failtSectors st').
Proof.
  intros Hi Hf. unfold resolveTickets.
  apply (forRange_invariant _
           (λ s, Forall (λ si, is_uint64 (SectorNumber si)) (sectorInfos s) ∧
                 Forall is_uint64 (failtSectors s)) (λ _, True));
    [|by apply Forall_true|done].
  intros s i s' _ [Hsi Hsf] (si & k & Hslot & _ & _ & Hr)%resolveTicket_Done.
  assert (is_uint64 (SectorNumber si)) as Hn.
  { rewrite Forall_lookup in Hsi. by apply (Hsi i). }
  destruct (StateGetRandomnessFromTickets _ _ _ _ _); destruct Hr as [-> ->].
  - split; [|done]. by apply Forall_insert.
  - split; [done|]. apply Forall_app. split; [done|]. by constructor.
Qed.

(** X10.  Every sector number the command reports is a [uint64] value,
    whatever [int] was requested (a negative request wraps around): those
    of the record and those of the failed list of the summary. *)
Theorem X10_numbers_are_uint64 h miner sectors :
  SortContract (sort_Sort h) →
  (∀ rec, output (Action h miner sectors) = Some rec →
     Forall (λ si, is_uint64 (SectorNumber si)) (RecoveryParams.SectorInfos rec)) ∧
  (∀ s, printed (Action h miner sectors) = Some s → Forall is_uint64 (failed s)).
Proof.
  intros Hsort.
  assert (Hloops : ∀ node maddr st1 buf st2,
    classifySectors node maddr init_locals sectors = Done st1 →
    resolveTickets h node buf (sorted_locals h st1) = Done st2 →
    Forall (λ si, is_uint64 (SectorNumber si)) (sectorInfos st2) ∧
    Forall is_uint64 (failtSectors st2)).
  { intros node maddr st1 buf st2 Hc Hr.
    apply (resolveTickets_is_uint64 _ _ _ _ _) in Hr; [done|..]; simpl.
    - apply classifySectors_Done in Hc as [-> _]. simpl.
      destruct (Hsort (omap (spec_classify node maddr) sectors)) as [Hp _].
      rewrite Hp. apply spec_classify_is_uint64.
    - apply classifySectors_failt in Hc as ->. simpl.
      apply spec_failure_is_uint64. }
  split.
  - intros rec (maddr & node & mi & st1 & buf & st2 & _ & _ & _ & Hc & _ & Hr & ->)
      %Action_output.
    by destruct (Hloops _ _ _ _ _ Hc Hr).
  - intros s (maddr & node & mi & st1 & buf & st2 & _ & _ & _ & Hc & _ & Hr & _
              & _ & _ & ->)%Action_printed.
    by destruct (Hloops _ _ _ _ _ Hc Hr).
Qed.

Lemma X10_witness :
  SortContract (sort_Sort demo_host) ∧
  printed (Action demo_host "f01000" [(-1)%Z; 5%Z])
    = Some {| exported := 1; failed := [18446744073709551615%Z]; elapsed := 7 |} ∧
  Forall is_uint64 [18446744073709551615%Z].
Proof.
  split; [exact reference_sort_contract|]. split; [reflexivity|].
  exact (proj2 (X10_numbers_are_uint64 demo_host "f01000" [(-1)%Z; 5%Z]
                  reference_sort_contract) _ eq_refl).
Defined.

(** ** The order of the whole list *)

Lemma adjacent_Sorted {A} (R : relation A) (l : list A) :
  (∀ i a b, l !! i = Some a → l !! S i = Some b → R a b) → Sorted R l.
Proof.
  induction l as [|x l IH]; intros Hadj; constructor.
  - apply IH. intros i a b Ha Hb. by apply (Hadj (S i)).
  - destruct l as [|y l]; constructor. by apply (Hadj 0).
Qed.

Lemma StronglySorted_lookup_lt {A} (R : relation A) (l : list A) i j a b :
  StronglySorted R l → i < j → l !! i = Some a → l !! j = Some b → R a b.
Proof.
  intros Hs. revert i j. induction Hs as [|x l Hs IH Hall]; intros i j Hij Ha Hb;
    [done|].
  destruct j as [|j]; [lia|]. destruct i as [|i]; simpl in *.
  - simplify_eq. rewrite Forall_forall in Hall. apply Hall.
    by eapply list_elem_of_lookup_2.
  - apply (IH i j); [lia|done..].
Qed.

(** Under the contract the sorted slice is sorted throughout. *)
Lemma SortContract_StronglySorted srt t :
  SortContract srt → StronglySorted ordered (srt t).
Proof.
  intros Hc. apply Sorted_StronglySorted; [apply _|].
  apply adjacent_Sorted. intros i a b Ha Hb.
  by eapply SortContract_adjacent.
Qed.

(** X11.  In the record no sector stands before a sector of a later
    activation epoch, at any distance: for any two positions [i < j] the
    epoch at [j] is not greater than the epoch at [i]. *)
Theorem X11_epochs_never_increase h miner sectors rec i j a b :
  SortContract (sort_Sort h) →
  output (Action h miner sectors) = Some rec →
  i < j →
  RecoveryParams.SectorInfos rec !! i = Some a →
  RecoveryParams.SectorInfos rec !! j = Some b →
  (Activation b ≤ Activation a)%Z.
Proof.
  intros Hsort Hout Hij Ha Hb.
  destruct (Action_sector_list _ _ _ _ Hsort Hout) as (maddr & node & _ & _ & Hl).
  assert (ordered (erase a) (erase b)) as Hord.
  { eapply (StronglySorted_lookup_lt ordered _ i j);
      [by apply (SortContract_StronglySorted (sort_Sort h))|done|..];
      rewrite <- Hl, list_lookup_fmap.
    - by rewrite Ha.
    - by rewrite Hb. }
  apply ordered_spec in Hord. simpl in Hord. lia.
Qed.

Lemma X11_witness :
  SortContract (sort_Sort demo_host) ∧ 0 < 2 ∧
  output (Action demo_host "f01000" [3%Z; 5%Z; 5%Z])
    = Some {| RecoveryParams.Miner := "f01000";
              RecoveryParams.SectorSize := 34359738368;
              RecoveryParams.SectorInfos :=
                [set_Ticket info5 (Some [xc8]); set_Ticket info5 (Some [xc8]);
                 set_Ticket info3 (Some [x96])] |} ∧
  (Activation (set_Ticket info3 (Some [x96]))
   ≤ Activation (set_Ticket info5 (Some [xc8])))%Z.
Proof.
  split; [exact reference_sort_contract|]. split; [lia|]. split; [reflexivity|].
  exact (X11_epochs_never_increase demo_host "f01000" [3%Z; 5%Z; 5%Z] _ 0 2 _ _
           reference_sort_contract eq_refl ltac:(lia) eq_refl eq_refl).
Defined.

(** ** The sort cannot be seen in the record *)

Lemma spec_classify_uint64 node maddr s1 s2 :
  uint64 s1 = uint64 s2 → spec_classify node maddr s1 = spec_classify node maddr s2.
Proof. unfold spec_classify. by intros ->. Qed.

(** Two classified sectors that [Less] does not separate are the same
    object, field by field: equal keys mean the same sector number, hence
    the same answers of the node. *)
Lemma classified_ties_equal node maddr (sectors : list Z) x1 x2 :
  x1 ∈ omap (spec_classify node maddr) sectors →
  x2 ∈ omap (spec_classify node maddr) sectors →
  ordered x1 x2 → ordered x2 x1 → x1 = x2.
Proof.
  intros (s1 & _ & H1)%list_elem_of_omap (s2 & _ & H2)%list_elem_of_omap
    Ho1%ordered_spec Ho2%ordered_spec.
  assert (uint64 s1 = uint64 s2) as Heq.
  { rewrite <- (spec_classify_SectorNumber _ _ _ _ H1),
            <- (spec_classify_SectorNumber _ _ _ _ H2). lia. }
  apply (spec_classify_uint64 node maddr) in Heq. congruence.
Qed.

Lemma sorted_classified_unique srt1 srt2 node maddr (sectors : list Z) :
  SortContract srt1 → SortContract srt2 →
  srt1 (omap (spec_classify node maddr) sectors)
  = srt2 (omap (spec_classify node maddr) sectors).
Proof.
  intros Hc1 Hc2.
  destruct (Hc1 (omap (spec_classify node maddr) sectors)) as [Hp1 _].
  destruct (Hc2 (omap (spec_classify node maddr) sectors)) as [Hp2 _].
  apply (StronglySorted_unique_strong ordered).
  - intros x1 x2 Hx1 Hx2. rewrite Hp1 in Hx1. rewrite Hp2 in Hx2.
    by apply (classified_ties_equal node maddr sectors).
  - by apply SortContract_StronglySorted.
  - by apply SortContract_StronglySorted.
  - by rewrite Hp1, Hp2.
Qed.

Lemma reversed_sort_contract : SortContract reversed_sort.
Proof.
  intros t. unfold reversed_sort. split.
  - destruct (reference_sort_contract (reverse t)) as [-> _].
    apply reverse_Permutation.
  - apply reference_sort_contract.
Qed.

Lemma same_node_refl node : same_node node node.
Proof. by repeat split. Qed.

(** X12.  The record does not depend on how [sort.Sort] sorts: [Less]
    separates any two classified sectors that differ, so every sort that
    meets the contract (stable or not) puts the slice in the same order
    and the command assembles the same record. *)
Theorem X12_record_independent_of_sort h srt miner sectors :
  SortContract (sort_Sort h) → SortContract srt →
  output (Action (with_sort h srt) miner sectors) = output (Action h miner sectors).
Proof.
  intros Hc1 Hc2. unfold Action.
  cbn [with_sort NewFromString GetFullNodeAPI MarshalCBOR sort_Sort time_start].
  destruct (NewFromString h miner) as [maddr|]; [|done].
  destruct (GetFullNodeAPI h) as [node|]; [|done].
  destruct (StateMinerInfo node maddr EmptyTSK) as [mi|]; [|done].
  destruct (classifySectors node maddr init_locals sectors) as [st1|] eqn:Hc; [|done].
  destruct (MarshalCBOR h maddr) as [buf|]; [|done].
  apply classifySectors_Done in Hc as [Hinfos _]. simpl in Hinfos.
  rewrite Hinfos, (sorted_classified_unique srt (sort_Sort h)) by done.
  rewrite (resolveTickets_same (with_sort h srt) h node node)
    by (done || apply same_node_refl).
  destruct (resolveTickets h node buf _) as [st2|]; [|done].
  by rewrite !output_writeOutput.
Qed.

Lemma X12_witness :
  SortContract (sort_Sort demo_host) ∧ SortContract reversed_sort ∧
  output (Action (with_sort demo_host reversed_sort) "f01000" [3%Z; 5%Z; 9%Z; 5%Z])
  = output (Action demo_host "f01000" [3%Z; 5%Z; 9%Z; 5%Z]).
Proof.
  split; [exact reference_sort_contract|]. split; [exact reversed_sort_contract|].
  exact (X12_record_independent_of_sort demo_host reversed_sort "f01000"
           [3%Z; 5%Z; 9%Z; 5%Z] reference_sort_contract reversed_sort_contract).
Defined.

(** ** The numbers of the summary *)

Lemma forRange_resolve_failt_length h node buf st js st' :
  forRange (resolveTicket h node buf) st js = Done st' →
  length (failtSectors st') ≤ length (failtSectors st) + length js.
Proof.
  revert st. induction js as [|i js IH]; intros st; simpl.
  - intros [= <-]. lia.
  - destruct (resolveTicket h node buf st i) as [st1|] eqn:Hs; simpl; [|done].
    intros Hrest%IH.
    apply resolveTicket_Done in Hs as (si & k & _ & _ & _ & Hr).
    destruct (StateGetRandomnessFromTickets _ _ _ _ _); destruct Hr as [_ Hf];
      rewrite Hf in Hrest; [lia|].
    rewrite length_app in Hrest. simpl in Hrest. lia.
Qed.

(** X13.  In the summary, the number of sectors exported is the length of
    the record's list, which is the number of requested sectors that were
    classified; the failed list starts with the requested sectors that were
    not, in the order of the request; exported and unclassified sectors
    together are as many as requested; and the failed list is never longer
    than the request. *)
Theorem X13_summary_counts h miner sectors s :
  SortContract (sort_Sort h) →
  printed (Action h miner sectors) = Some s →
  ∃ maddr node rec,
    NewFromString h miner = inl maddr ∧
    GetFullNodeAPI h = inl node ∧
    output (Action h miner sectors) = Some rec ∧
    exported s = length (RecoveryParams.SectorInfos rec) ∧
    exported s = length (omap (spec_classify node maddr) sectors) ∧
    omap (spec_failure node maddr) sectors `prefix_of` failed s ∧
    exported s + length (omap (spec_failure node maddr) sectors) = length sectors ∧
    length (failed s) ≤ length sectors.
Proof.
  intros Hsort (maddr & node & mi & st1 & buf & st2 & Hm & Hn & _ & Hc & _ & Hr
                & Hout & _ & Hex & Hf)%Action_printed.
  exists maddr, node, (assemble maddr mi st2).
  pose proof (classifySectors_Done _ _ _ _ _ Hc) as [Hinfos _].
  pose proof (classifySectors_failt _ _ _ _ _ Hc) as Hfailt.
  simpl in Hinfos, Hfailt.
  destruct (Hsort (omap (spec_classify node maddr) sectors)) as [Hperm _].
  assert (Hlen : length (sectorInfos st2)
                 = length (omap (spec_classify node maddr) sectors)).
  { rewrite <- (length_fmap erase), (resolveTickets_erase _ _ _ _ _ Hr), length_fmap.
    simpl. by rewrite Hinfos, Hperm. }
  pose proof (classify_or_fail_length node maddr sectors) as Hcount.
  split_and!; [done..| |congruence| | |].
  - by rewrite Hex.
  - rewrite Hf, <- Hfailt. by apply (forRange_resolve_failt _ _ _ _ _ _ Hr).
  - rewrite Hex, Hlen. done.
  - rewrite Hf. unfold resolveTickets in Hr.
    apply forRange_resolve_failt_length in Hr. simpl in Hr.
    rewrite length_seq, Hfailt, Hinfos, Hperm in Hr. lia.
Qed.

Lemma X13_witness :
  SortContract (sort_Sort host_but_200) ∧
  printed (Action host_but_200 "f01000" [3%Z; 9%Z; 5%Z])
    = Some {| exported := 2; failed := [9%Z; 5%Z]; elapsed := 7 |} ∧
  ∃ maddr node rec,
    NewFromString host_but_200 "f01000" = inl maddr ∧
    GetFullNodeAPI host_but_200 = inl node ∧
    output (Action host_but_200 "f01000" [3%Z; 9%Z; 5%Z]) = Some rec ∧
    2 = length (RecoveryParams.SectorInfos rec) ∧
    2 = length (omap (spec_classify node maddr) [3%Z; 9%Z; 5%Z]) ∧
    omap (spec_failure node maddr) [3%Z; 9%Z; 5%Z] `prefix_of` [9%Z; 5%Z] ∧
    2 + length (omap (spec_failure node maddr) [3%Z; 9%Z; 5%Z])
      = length [3%Z; 9%Z; 5%Z] ∧
    length [9%Z; 5%Z] ≤ length [3%Z; 9%Z; 5%Z].
Proof.
  split; [exact reference_sort_contract|]. split; [reflexivity|].
  exact (X13_summary_counts host_but_200 "f01000" [3%Z; 9%Z; 5%Z] _
           reference_sort_contract eq_refl).
Defined.

Lemma forRange_resolve_failed_numbers h node buf st js st' n :
  forRange (resolveTicket h node buf) st js = Done st' →
  n ∈ failtSectors st' →
  n ∈ failtSectors st ∨ n ∈ SectorNumber <$> sectorInfos st.
Proof.
  revert st. induction js as [|i js IH]; intros st; simpl.
  - intros [= <-]. by left.
  - destruct (resolveTicket h node buf st i) as [st1|] eqn:Hs; simpl; [|done].
    intros Hrest Hin. destruct (IH _ Hrest Hin) as [Hf|Hnum].
    + apply resolveTicket_Done in Hs as (si & k & Hslot & _ & _ & Hq).
      destruct (StateGetRandomnessFromTickets _ _ _ _ _); destruct Hq as [_ Hq];
        rewrite Hq in Hf; [by left|].
      apply elem_of_app in Hf as [Hf|Hf%list_elem_of_singleton]; [by left|].
      right. subst n. apply list_elem_of_fmap_2. by eapply list_elem_of_lookup_2.
    + right. by rewrite <- SectorNumber_erase, <- (resolveTicket_erase _ _ _ _ _ _ Hs),
                        SectorNumber_erase.
Qed.

(** X14.  Every number of the failed list of the summary is that of a
    requested sector that was not classified, or that of a sector listed
    in the record: a sector whose randomness derivation fails is reported
    as failed and is exported all the same. *)
Theorem X14_failed_numbers h miner sectors s n :
  SortContract (sort_Sort h) →
  printed (Action h miner sectors) = Some s →
  n ∈ failed s →
  ∃ maddr node rec,
    NewFromString h miner = inl maddr ∧
    GetFullNodeAPI h = inl node ∧
    output (Action h miner sectors) = Some rec ∧
    (n ∈ omap (spec_failure node maddr) sectors ∨
     n ∈ SectorNumber <$> RecoveryParams.SectorInfos rec).
Proof.
  intros Hsort (maddr & node & mi & st1 & buf & st2 & Hm & Hn & _ & Hc & _ & Hr
                & Hout & _ & _ & Hf)%Action_printed Hin.
  exists maddr, node, (assemble maddr mi st2). split_and!; [done..|].
  pose proof (classifySectors_failt _ _ _ _ _ Hc) as Hfailt. simpl in Hfailt.
  rewrite Hf in Hin. simpl.
  destruct (forRange_resolve_failed_numbers _ _ _ _ _ _ _ Hr Hin) as [Hcl|Hnum].
  - left. simpl in Hcl. by rewrite <- Hfailt.
  - right. by rewrite <- SectorNumber_erase, (resolveTickets_erase _ _ _ _ _ Hr),
                      SectorNumber_erase.
Qed.

Lemma X14_witness :
  SortContract (sort_Sort host_but_200) ∧
  printed (Action host_but_200 "f01000" [3%Z; 9%Z; 5%Z])
    = Some {| exported := 2; failed := [9%Z; 5%Z]; elapsed := 7 |} ∧
  5%Z ∈ [9%Z; 5%Z] ∧
  ∃ maddr node rec,
    NewFromString host_but_200 "f01000" = inl maddr ∧
    GetFullNodeAPI host_but_200 = inl node ∧
    output (Action host_but_200 "f01000" [3%Z; 9%Z; 5%Z]) = Some rec ∧
    (5%Z ∈ omap (spec_failure node maddr) [3%Z; 9%Z; 5%Z] ∨
     5%Z ∈ SectorNumber <$> RecoveryParams.SectorInfos rec).
Proof.
  assert (Hin : 5%Z ∈ [9%Z; 5%Z]) by (right; left).
  split; [exact reference_sort_contract|]. split; [reflexivity|].
  split; [exact Hin|].
  exact (X14_failed_numbers host_but_200 "f01000" [3%Z; 9%Z; 5%Z] _ 5
           reference_sort_contract eq_refl Hin).
Defined.

(** ** The error of the tipset lookup *)

(** X15.  The randomness loop never reads the error that
    [ChainGetTipSetByHeight] returns: on two nodes that differ in that
    error only, it ends in the same state (or panics on both). *)
Theorem X15_lookup_error_never_read h n1 n2 buf st :
  same_but_lookup_error n1 n2 →
  resolveTickets h n1 buf st = resolveTickets h n2 buf st.
Proof.
  intros (_ & _ & _ & Hts & Hrand). apply forRange_ext. intros s i.
  unfold resolveTicket.
  destruct (sectorInfos s !! i) as [si|]; [|done].
  specialize (Hts (Activation si) (tsk s)).
  destruct (ChainGetTipSetByHeight n1 (Activation si) (tsk s)) as [ts1 e1].
  destruct (ChainGetTipSetByHeight n2 (Activation si) (tsk s)) as [ts2 e2].
  simpl in Hts. subst ts2.
  destruct (TipSet_Key h ts1) as [k|]; simpl; [|done]. by rewrite Hrand.
Qed.

Lemma X15_witness :
  same_but_lookup_error demo_node (demo_node_with tipset_with_error demo_randomness) ∧
  resolveTickets demo_host (demo_node_with tipset_with_error demo_randomness)
    [x43] demo_locals
  = Done {| sectorInfos := [set_Ticket info5 (Some [xc8]);
                            set_Ticket info3 (Some [x96])];
            failtSectors := []; tsk := "ts150"; logged := [] |}.
Proof.
  assert (Hsame : same_but_lookup_error demo_node
                    (demo_node_with tipset_with_error demo_randomness))
    by (repeat split).
  split; [exact Hsame|].
  rewrite <- (X15_lookup_error_never_read demo_host _ _ [x43] demo_locals Hsame).
  reflexivity.
Defined.

(** ** The unconditional property on the small chain *)

Lemma X8_witness :
  written (Action demo_host "f01000" [3%Z; 9%Z; 5%Z])
    = Some ("sectors-recovery-f01000.json", [x2e; x2e]) ∧
  exit (Action demo_host "f01000" [3%Z; 9%Z; 5%Z]) = ExitNil ∧
  ¬ is_Some (written (Action host_disk_full "f01000" [3%Z; 9%Z; 5%Z])).
Proof.
  split; [reflexivity|]. split.
  - apply (X8_file_written_iff_nil demo_host "f01000" [3%Z; 9%Z; 5%Z]). by eexists.
  - intros Hw.
    destruct (X8_file_written_iff_nil host_disk_full "f01000" [3%Z; 9%Z; 5%Z])
      as [Hiff _].
    apply (proj2 Hiff) in Hw. vm_compute in Hw. discriminate Hw.
Defined.

(** ** The classification loop always completes *)

(** X4.  The classification loop never panics and never stops early:
    whatever the node answers (errors, nil, records) it runs through the
    whole request, and the slice and the failure list together grow by
    exactly the number of sectors requested. *)
Theorem X4_classification_always_completes node maddr st sectors :
  ∃ st',
    classifySectors node maddr st sectors = Done st' ∧
    length (sectorInfos st') + length (failtSectors st')
    = length (sectorInfos st) + length (failtSectors st) + length sectors.
Proof.
  destruct (classifySectors_total node maddr st sectors) as [st' Hc].
  exists st'. split; [done|].
  rewrite (proj1 (classifySectors_Done _ _ _ _ _ Hc)),
          (classifySectors_failt _ _ _ _ _ Hc), !length_app.
  pose proof (classify_or_fail_length node maddr sectors). lia.
Qed.

Lemma X4_witness :
  ∃ st',
    classifySectors demo_node "f01000" demo_locals [3%Z; 7%Z; 8%Z; 12%Z] = Done st' ∧
    length (sectorInfos st') + length (failtSectors st')
    = length (sectorInfos demo_locals) + length (failtSectors demo_locals)
      + length [3%Z; 7%Z; 8%Z; 12%Z].
Proof.
  exact (X4_classification_always_completes demo_node "f01000" demo_locals
           [3%Z; 7%Z; 8%Z; 12%Z]).
Defined.

(** ** Failures and diagnostics *)







